(** * A shallow embedding of the ai-chat-agent front end

    The development follows the TypeScript sources module by module:
    - [JsString]      the string primitives the code relies on
                      (toLowerCase, trim, startsWith);
    - [Regex]         the two regular expressions of the canned-response
                      selector, with a derivative matcher;
    - [Auth]          src/lib/auth.ts (mock localStorage authentication);
    - [Validators]    src/lib/validators.ts (file validation);
    - [Double]        the double-precision arithmetic behind
                      [Math.floor(Math.random() * n)];
    - [AiAgent]       the aiAgentWrapper module (canned responses);
    - [ChatStore]     the Zustand chat store;
    - [UseChat]       app/chat/hooks/useChat.ts;
    - [UploadHandler] app/chat/hooks/useUploadHandler.ts;
    - [VoiceRecorder] app/chat/hooks/useVoiceRecorder.ts;
    - [RegexExt], [FormValidators]  the form validators of validators.ts;
    - [UserStore]     the Zustand user store;
    - [AuthPages]     the registration and login pages;
    - [AgentHistory]  formatMessageHistory of the agent wrapper;
    - [DragHandlers]  the drag handlers of useUploadHandler.ts;
    - [ChatInput], [VoiceView], [FilePreview]  the handlers and the
                      formatting helpers of the chat input components.

    Conventions.  A JavaScript string is a Rocq [string] whose characters
    are read as the code units U+0000..U+00FF.  [option] models a value
    that may be [null]/[undefined].  Asynchronous functions are cut at
    their [await]s: every piece between two awaits runs atomically on the
    single UI thread and is a function on the state. *)

From Stdlib Require Import Ascii String NArith ZArith QArith Qpower.
From stdpp Require Import gmap strings list pretty.

Local Open Scope string_scope.

(* ===================================================================== *)
(** * Strings *)
(* ===================================================================== *)

Module JsString.

Definition charCode (c : ascii) : N := N_of_ascii c.

Definition between (lo hi n : N) : bool := ((lo <=? n) && (n <=? hi))%N.

(** Upper-case letters below U+0100: A-Z, and the accented capitals
    U+00C0..U+00DE except the multiplication sign U+00D7. *)
Definition isUpper (c : ascii) : bool :=
  between 65 90 (charCode c)
  || (between 192 222 (charCode c) && negb (charCode c =? 215)%N).

(** [String.prototype.toLowerCase], one code unit at a time. *)
Definition lowerChar (c : ascii) : ascii :=
  if isUpper c then ascii_of_N (charCode c + 32) else c.

Fixpoint toLowerCase (s : string) : string :=
  match s with
  | EmptyString => EmptyString
  | String c s' => String (lowerChar c) (toLowerCase s')
  end.

(** WhiteSpace and LineTerminator code points below U+0100: TAB, LF, VT,
    FF, CR, SPACE and NBSP.  This is also the class [\s]. *)
Definition isWhiteSpace (c : ascii) : bool :=
  between 9 13 (charCode c) || (charCode c =? 32)%N || (charCode c =? 160)%N.

Fixpoint trimStart (s : string) : string :=
  match s with
  | EmptyString => EmptyString
  | String c s' => if isWhiteSpace c then trimStart s' else s
  end.

Fixpoint trimEnd (s : string) : string :=
  match s with
  | EmptyString => EmptyString
  | String c s' =>
      match trimEnd s' with
      | EmptyString => if isWhiteSpace c then EmptyString else String c EmptyString
      | t => String c t
      end
  end.

(** [String.prototype.trim] *)
Definition trim (s : string) : string := trimEnd (trimStart s).

(** [s.startsWith(p)] *)
Fixpoint startsWith (s p : string) : bool :=
  match p, s with
  | EmptyString, _ => true
  | String a p', String b s' => if Ascii.eqb a b then startsWith s' p' else false
  | String _ _, EmptyString => false
  end.

(** JavaScript truthiness of a string: only the empty string is falsy. *)
Definition truthy (s : string) : bool :=
  match s with EmptyString => false | _ => true end.

(** Truthiness of [string | null | undefined]. *)
Definition truthyOpt (o : option string) : bool :=
  match o with Some s => truthy s | None => false end.

Definition nl : string := String (ascii_of_N 10) EmptyString.

End JsString.

(* ===================================================================== *)
(** * Regular expressions *)
(* ===================================================================== *)

Module Regex.
Import JsString.

(** The fragment of the JavaScript pattern language used by the
    sources: character tests, concatenation, alternation, star. *)
Inductive regex : Type :=
| Void : regex
| Eps : regex
| Cls : (ascii -> bool) -> regex
| Cat : regex -> regex -> regex
| Alt : regex -> regex -> regex
| Star : regex -> regex.

(** Canonicalize of the [i] flag (no [u] flag): a-z are compared as A-Z;
    a code unit above U+007F never canonicalizes to an ASCII one. *)
Definition canonicalize (c : ascii) : ascii :=
  if between 97 122 (charCode c) then ascii_of_N (charCode c - 32) else c.

(** A pattern character under the [i] flag. *)
Definition chr_i (p : ascii) : regex :=
  Cls (fun c => Ascii.eqb (canonicalize c) (canonicalize p)).

(** A literal word under the [i] flag. *)
Fixpoint lit_i (w : string) : regex :=
  match w with
  | EmptyString => Eps
  | String p w' => Cat (chr_i p) (lit_i w')
  end.

(** [a|b|...] *)
Fixpoint alts (rs : list regex) : regex :=
  match rs with
  | [] => Void
  | [r] => r
  | r :: rs' => Alt r (alts rs')
  end.

Fixpoint nullable (r : regex) : bool :=
  match r with
  | Void => false
  | Eps => true
  | Cls _ => false
  | Cat a b => nullable a && nullable b
  | Alt a b => nullable a || nullable b
  | Star _ => true
  end.

Fixpoint deriv (c : ascii) (r : regex) : regex :=
  match r with
  | Void => Void
  | Eps => Void
  | Cls p => if p c then Eps else Void
  | Cat a b =>
      if nullable a then Alt (Cat (deriv c a) b) (deriv c b)
      else Cat (deriv c a) b
  | Alt a b => Alt (deriv c a) (deriv c b)
  | Star a => Cat (deriv c a) (Star a)
  end.

(** [/^r/.test(s)]: some prefix of [s] matches [r]. *)
Fixpoint testAnchored (r : regex) (s : string) : bool :=
  nullable r ||
  match s with
  | EmptyString => false
  | String c s' => testAnchored (deriv c r) s'
  end.

(** [/r/.test(s)]: some substring of [s] matches [r]. *)
Fixpoint test (r : regex) (s : string) : bool :=
  testAnchored r s ||
  match s with
  | EmptyString => false
  | String _ s' => test r s'
  end.

(** The words of a regular expression. *)
Inductive matches : regex -> string -> Prop :=
| m_eps : matches Eps EmptyString
| m_cls p c : p c = true -> matches (Cls p) (String c EmptyString)
| m_cat a b u v : matches a u -> matches b v -> matches (Cat a b) (u +:+ v)
| m_alt_l a b u : matches a u -> matches (Alt a b) u
| m_alt_r a b u : matches b u -> matches (Alt a b) u
| m_star_nil a : matches (Star a) EmptyString
| m_star_cons a u v :
    matches a u -> matches (Star a) v -> matches (Star a) (u +:+ v).

End Regex.

(* ===================================================================== *)
(** * src/types/index.ts *)
(* ===================================================================== *)

Module Types.

Inductive MessageContentType : Type :=
| text | image | file | voice | code.

Inductive Role : Type := user | assistant.

Record Attachment : Type := mkAttachment {
  att_id : string;
  att_name : string;
  att_type : string;
  att_size : N;
  att_url : string;
  att_preview : option string
}.

(** [msg_content] is a string for every message built from user input;
    it is [None] only where the source would store [undefined]. *)
Record Message : Type := mkMessage {
  msg_id : string;
  msg_role : Role;
  msg_content : option string;
  msg_contentType : MessageContentType;
  msg_attachments : option (list Attachment);
  msg_timestamp : string;
  msg_isLoading : option bool
}.

Record AIAgentPayload : Type := mkPayload {
  pl_message : string;
  pl_attachments : option (list Attachment);
  pl_conversationId : option string;
  pl_messageHistory : option (list Message)
}.

Record AIAgentResponse : Type := mkResponse {
  rs_type : MessageContentType;
  rs_content : option string;
  rs_attachments : option (list Attachment);
  rs_error : option string
}.

Record RegisterFormData : Type := mkRegisterFormData {
  rf_name : string;
  rf_email : string;
  rf_mobile : string;
  rf_password : string;
  rf_confirmPassword : string
}.

Record LoginFormData : Type := mkLoginFormData {
  lf_email : string;
  lf_password : string
}.

(** The browser's [File]: the three attributes the sources read. *)
Record File : Type := mkFile {
  file_name : string;
  file_type : string;
  file_size : N
}.

(** What the sources read from the outside world when they build an id
    or a timestamp: [Date.now()], the text
    [Math.random().toString(36).substr(2, 9)] and
    [new Date().toISOString()]. *)
Record Clock : Type := mkClock {
  dateNow : N;
  random36 : string;
  isoString : string
}.

(** How an awaited promise settles. *)
Inductive Settled (A : Type) : Type :=
| Fulfilled : A -> Settled A
| Rejected : Settled A.
Arguments Fulfilled {A} _.
Arguments Rejected {A}.

End Types.

(* ===================================================================== *)
(** * src/lib/auth.ts *)
(* ===================================================================== *)

Module Auth.
Import JsString Types.

(** A stored user is whatever object [JSON.parse] yields: a finite map
    from field names to strings.  The static type [User & { password }]
    is erased at run time. *)
Abbreviation jsobj := (gmap string string).

(** [localStorage], with the two keys [USERS_STORAGE_KEY] =
    'ai_chat_users' and [CURRENT_USER_KEY] = 'ai_chat_current_user'.
    Values are kept decoded ([JSON.parse (JSON.stringify v) = v] on
    these objects); [None] is a missing key. *)
Record LocalStorage : Type := mkLocalStorage {
  ai_chat_users : option (list jsobj);
  ai_chat_current_user : option jsobj
}.

(** [None] is the server side, where [typeof window === 'undefined']. *)
Definition Window : Type := option LocalStorage.

Record AuthResult : Type := mkAuthResult {
  success : bool;
  user : option jsobj;
  error : option string
}.

Definition generateUserId (clk : Clock) : string :=
  "user_" +:+ pretty (dateNow clk) +:+ "_" +:+ random36 clk.

Definition getStoredUsers (w : Window) : list jsobj :=
  match w with
  | None => []
  | Some ls =>
      match ai_chat_users ls with
      | Some users => users
      | None => []
      end
  end.

Definition saveUsers (users : list jsobj) (w : Window) : Window :=
  match w with
  | None => None
  | Some ls =>
      Some {| ai_chat_users := Some users;
              ai_chat_current_user := ai_chat_current_user ls |}
  end.

(** [u.field === v] for a string [v] *)
Definition fieldIs (u : jsobj) (field v : string) : bool :=
  bool_decide (u !! field = Some v).

(** [Array.prototype.some] and [Array.prototype.find] *)
Definition some {A} (p : A -> bool) (l : list A) : bool := existsb p l.
Definition find {A} (p : A -> bool) (l : list A) : option A := List.find p l.

Definition registerUser (data : RegisterFormData) (clk : Clock) (w : Window)
  : Window * AuthResult :=
  let users := getStoredUsers w in
  if some (fun u => fieldIs u "email" (rf_email data)) users then
    (w, {| success := false; user := None;
           error := Some "Email already registered" |})
  else
    let newUser : jsobj :=
      {[ "id" := generateUserId clk;
         "name" := rf_name data;
         "email" := rf_email data;
         "mobile" := rf_mobile data;
         "password" := rf_password data;
         "createdAt" := isoString clk ]} in
    let users := (users ++ [newUser])%list in
    let w := saveUsers users w in
    let userWithoutPassword := delete "password" newUser in
    (w, {| success := true; user := Some userWithoutPassword; error := None |}).

Definition loginUser (data : LoginFormData) (w : Window) : Window * AuthResult :=
  let users := getStoredUsers w in
  match find (fun u => fieldIs u "email" (lf_email data)
                       && fieldIs u "password" (lf_password data)) users with
  | None =>
      (w, {| success := false; user := None;
             error := Some "Invalid email or password" |})
  | Some user =>
      let userWithoutPassword := delete "password" user in
      let w :=
        match w with
        | Some ls =>
            Some {| ai_chat_users := ai_chat_users ls;
                    ai_chat_current_user := Some userWithoutPassword |}
        | None => None
        end in
      (w, {| success := true; user := Some userWithoutPassword; error := None |})
  end.

Definition getCurrentUser (w : Window) : option jsobj :=
  match w with
  | None => None
  | Some ls => ai_chat_current_user ls
  end.

Definition logoutUser (w : Window) : Window :=
  match w with
  | None => None
  | Some ls =>
      Some {| ai_chat_users := ai_chat_users ls; ai_chat_current_user := None |}
  end.

Definition isLoggedIn (w : Window) : bool :=
  match getCurrentUser w with Some _ => true | None => false end.

End Auth.

(* ===================================================================== *)
(** * src/lib/validators.ts *)
(* ===================================================================== *)

Module Validators.
Import JsString Types.

Module AllowedFileTypes.
Definition images : list string :=
  ["image/jpeg"; "image/png"; "image/gif"; "image/webp"].
Definition documents : list string :=
  ["application/pdf"; "text/plain"; "application/msword"].
Definition audio : list string :=
  ["audio/mp3"; "audio/wav"; "audio/webm"; "audio/ogg"].
End AllowedFileTypes.

Definition MAX_FILE_SIZE : N := 10 * 1024 * 1024.

Record Validation : Type := mkValidation {
  valid : bool;
  error : option string
}.

(** [Array.prototype.includes] on strings *)
Definition includes (l : list string) (x : string) : bool :=
  existsb (String.eqb x) l.

Definition validateFile (f : File) : Validation :=
  let allAllowedTypes :=
    (AllowedFileTypes.images ++ AllowedFileTypes.documents
       ++ AllowedFileTypes.audio)%list in
  if negb (includes allAllowedTypes (file_type f)) then
    {| valid := false; error := Some "File type not supported" |}
  else if (MAX_FILE_SIZE <? file_size f)%N then
    {| valid := false; error := Some "File size exceeds 10MB limit" |}
  else
    {| valid := true; error := None |}.

End Validators.

(* ===================================================================== *)
(** * Double-precision numbers *)
(* ===================================================================== *)

(** JavaScript numbers are IEEE 754 binary64 values.  The agent wrapper
    multiplies the result of [Math.random()] by an array length and
    takes [Math.floor] of the product, so this module has the finite
    non-negative doubles, their product rounded to nearest with ties to
    even, and the floor.  Signs, infinities and NaN do not occur in that
    expression and are left out. *)
Module Double.

(** The double [mant * 2^expo]. *)
Record double : Type := mkDouble { mant : Z; expo : Z }.

(** The real number a double stands for. *)
Definition value (d : double) : Q := inject_Z (mant d) * Qpower 2 (expo d).

(** The finite non-negative doubles: a significand of at most 53 bits
    and an exponent from -1074 (the subnormal range) up to 971. *)
Definition finite (d : double) : Prop :=
  (0 <= mant d < 2 ^ 53)%Z /\ (-1074 <= expo d <= 971)%Z.

(** An integer of magnitude below [2^53] (an array length) is a double
    as it stands. *)
Definition ofZ (n : Z) : double := mkDouble n 0.

(** [a / 2^s] rounded to the nearest integer, a tie going to the even
    neighbour. *)
Definition roundShift (a s : Z) : Z :=
  let q := (a / 2 ^ s)%Z in
  let r := (a mod 2 ^ s)%Z in
  let half := (2 ^ (s - 1))%Z in
  if (r <? half)%Z then q
  else if (half <? r)%Z then (q + 1)%Z
  else if Z.even q then q else (q + 1)%Z.

(** [x * y]: the exact product when it fits 53 bits at an exponent of
    -1074 or more, and otherwise the product with the [s] excess low
    bits rounded away. *)
Definition mul (x y : double) : double :=
  let a := (mant x * mant y)%Z in
  let e := (expo x + expo y)%Z in
  let s := Z.max (Z.log2 a - 52) (-1074 - e) in
  if (s <=? 0)%Z then mkDouble a e
  else mkDouble (roundShift a s) (e + s).

(** [Math.floor] *)
Definition floor (d : double) : Z :=
  if (0 <=? expo d)%Z then (mant d * 2 ^ expo d)%Z
  else (mant d / 2 ^ (- expo d))%Z.

End Double.

(* ===================================================================== *)
(** * The AI agent wrapper (canned responses) *)
(* ===================================================================== *)

Module AiAgent.
Import JsString Regex Types.

Definition greetingPool : list string :=
  [ "Hello! I'm your AI assistant. How can I help you today?";
    "Hi there! I'm ready to assist you with any questions or tasks.";
    "Greetings! What would you like to explore today?" ].

Definition imagePool : list string :=
  [ "I can see you've shared an image. Let me analyze it for you..." +:+ nl +:+ nl
    +:+ "This appears to be an interesting visual. I can help you with image descriptions, analysis, or any questions about what you've shared.";
    "Thanks for sharing this image! I've analyzed it and I'm ready to discuss what I see or answer any questions you might have about it." ].

Definition filePool : list string :=
  [ "I've received your file. Let me process it..." +:+ nl +:+ nl
    +:+ "I can help you analyze the contents, summarize key points, or answer questions about the document.";
    "File received! I'm ready to help you work with this document. What would you like to know about it?" ].

Definition codePool : list string :=
  [ "```javascript" +:+ nl
    +:+ "// Here's a sample code response" +:+ nl
    +:+ "function greet(name) {" +:+ nl
    +:+ "  return `Hello, ${name}!`;" +:+ nl
    +:+ "}" +:+ nl +:+ nl
    +:+ "console.log(greet('World'));" +:+ nl
    +:+ "```" +:+ nl +:+ nl
    +:+ "I can help you with code explanations, debugging, or writing new code!" ].

Definition defaultPool : list string :=
  [ "That's a great question! Let me think about this..." +:+ nl +:+ nl
    +:+ "Based on my analysis, I can provide you with a comprehensive response. Is there anything specific you'd like me to focus on?";
    "I understand what you're asking. Here's my perspective on this topic." +:+ nl +:+ nl
    +:+ "Would you like me to elaborate on any particular aspect?";
    "Thanks for your message! I'm processing your request and here's what I found relevant to share with you." ].

Definition mockResponses : gmap string (list string) :=
  {[ "greeting" := greetingPool;
     "image" := imagePool;
     "file" := filePool;
     "code" := codePool;
     "default" := defaultPool ]}.

(** [responses[Math.floor(Math.random() * responses.length)]], with
    [rnd] the double [Math.random()] returns; the product is the double
    product.  An index outside the array reads [undefined]. *)
Definition getRandomResponse (responses : list string) (rnd : Double.double)
    : option string :=
  let i := Double.floor
             (Double.mul rnd (Double.ofZ (Z.of_nat (length responses)))) in
  if (i <? 0)%Z then None else responses !! Z.to_nat i.

(** [/^(hi|hello|hey|greetings|good\s*(morning|afternoon|evening))/i] *)
Definition greetingRe : regex :=
  alts [ lit_i "hi"; lit_i "hello"; lit_i "hey"; lit_i "greetings";
         Cat (lit_i "good")
           (Cat (Star (Cls isWhiteSpace))
              (alts [ lit_i "morning"; lit_i "afternoon"; lit_i "evening" ])) ].

(** [/code|function|programming|javascript|python|react|api/i] *)
Definition codeRe : regex :=
  alts [ lit_i "code"; lit_i "function"; lit_i "programming";
         lit_i "javascript"; lit_i "python"; lit_i "react"; lit_i "api" ].

Definition getResponseCategory (payload : AIAgentPayload) : string :=
  let message := toLowerCase (pl_message payload) in
  if testAnchored greetingRe message then "greeting"
  else if test codeRe message then "code"
  else
    match pl_attachments payload with
    | Some (firstAttachment :: _) =>
        if startsWith (att_type firstAttachment) "image/" then "image"
        else "file"
    | _ => "default"
    end.

(** The body of [sendToAIAgent] after its fixed delay.  Nothing in the
    [try] block throws, so the promise is always fulfilled. *)
Definition sendToAIAgent (payload : AIAgentPayload) (rnd : Double.double)
    : AIAgentResponse :=
  let category := getResponseCategory payload in
  let responses :=
    match mockResponses !! category with
    | Some pool => pool
    | None => defaultPool
    end in
  let content := getRandomResponse responses rnd in
  {| rs_type := text; rs_content := content;
     rs_attachments := None; rs_error := None |}.

End AiAgent.

(* ===================================================================== *)
(** * The chat store *)
(* ===================================================================== *)

Module ChatStore.
Import JsString Types.

Record ChatState : Type := mkChatState {
  messages : list Message;
  conversationId : option string;
  isTyping : bool;
  inputText : string;
  pendingAttachments : list Attachment;
  error : option string
}.

Definition initialState : ChatState :=
  {| messages := []; conversationId := None; isTyping := false;
     inputText := ""; pendingAttachments := []; error := None |}.

Definition generateMessageId (clk : Clock) : string :=
  "msg_" +:+ pretty (dateNow clk) +:+ "_" +:+ random36 clk.

Definition generateConversationId (clk : Clock) : string :=
  "conv_" +:+ pretty (dateNow clk) +:+ "_" +:+ random36 clk.

Definition generateAttachmentId (clk : Clock) : string :=
  "att_" +:+ pretty (dateNow clk) +:+ "_" +:+ random36 clk.

(** What the closure of a running [sendMessage] keeps across its
    [await]: the payload handed to the agent and the conversation id
    read by [get()] on entry. *)
Record SendInFlight : Type := mkSendInFlight {
  sf_payload : AIAgentPayload;
  sf_conversationId : option string
}.

(** [sendMessage], from entry to the [await]. *)
Definition sendMessage_begin (content : string) (attachments : list Attachment)
    (clk : Clock) (s : ChatState) : ChatState * SendInFlight :=
  let userMessage :=
    {| msg_id := generateMessageId clk;
       msg_role := user;
       msg_content := Some content;
       msg_contentType := text;
       msg_attachments :=
         if (0 <? length attachments)%nat then Some attachments else None;
       msg_timestamp := isoString clk;
       msg_isLoading := None |} in
  ({| messages := (messages s ++ [userMessage])%list;
      conversationId := conversationId s;
      isTyping := true;
      inputText := "";
      pendingAttachments := [];
      error := None |},
   {| sf_payload :=
        {| pl_message := content;
           pl_attachments := Some attachments;
           pl_conversationId :=
             if truthyOpt (conversationId s) then conversationId s else None;
           pl_messageHistory := Some (messages s) |};
      sf_conversationId := conversationId s |}).

(** [sendMessage], from the settled [await] to the end: the rest of the
    [try] block when the agent call is fulfilled, the [catch] block when
    it is rejected.  [clk] is read for the assistant message, [clk'] by
    [generateConversationId]. *)
Definition sendMessage_settle (k : SendInFlight)
    (outcome : Settled AIAgentResponse) (clk clk' : Clock) (s : ChatState)
  : ChatState :=
  match outcome with
  | Fulfilled response =>
      let aiMessage :=
        {| msg_id := generateMessageId clk;
           msg_role := assistant;
           msg_content := rs_content response;
           msg_contentType := rs_type response;
           msg_attachments := rs_attachments response;
           msg_timestamp := isoString clk;
           msg_isLoading := None |} in
      let s1 :=
        {| messages := (messages s ++ [aiMessage])%list;
           conversationId :=
             if truthyOpt (sf_conversationId k) then sf_conversationId k
             else Some (generateConversationId clk');
           isTyping := false;
           inputText := inputText s;
           pendingAttachments := pendingAttachments s;
           error := error s |} in
      if truthyOpt (rs_error response) then
        {| messages := messages s1;
           conversationId := conversationId s1;
           isTyping := isTyping s1;
           inputText := inputText s1;
           pendingAttachments := pendingAttachments s1;
           error := rs_error response |}
      else s1
  | Rejected =>
      {| messages := messages s;
         conversationId := conversationId s;
         isTyping := false;
         inputText := inputText s;
         pendingAttachments := pendingAttachments s;
         error := Some "Failed to send message. Please try again." |}
  end.

Definition addMessage (message : Message) (s : ChatState) : ChatState :=
  {| messages := (messages s ++ [message])%list;
     conversationId := conversationId s;
     isTyping := isTyping s;
     inputText := inputText s;
     pendingAttachments := pendingAttachments s;
     error := error s |}.

Definition setInputText (t : string) (s : ChatState) : ChatState :=
  {| messages := messages s;
     conversationId := conversationId s;
     isTyping := isTyping s;
     inputText := t;
     pendingAttachments := pendingAttachments s;
     error := error s |}.

Definition addAttachment (attachment : Attachment) (s : ChatState) : ChatState :=
  {| messages := messages s;
     conversationId := conversationId s;
     isTyping := isTyping s;
     inputText := inputText s;
     pendingAttachments := (pendingAttachments s ++ [attachment])%list;
     error := error s |}.

Definition removeAttachment (id : string) (s : ChatState) : ChatState :=
  {| messages := messages s;
     conversationId := conversationId s;
     isTyping := isTyping s;
     inputText := inputText s;
     pendingAttachments :=
       List.filter (fun a => negb (String.eqb (att_id a) id)) (pendingAttachments s);
     error := error s |}.

Definition clearAttachments (s : ChatState) : ChatState :=
  {| messages := messages s;
     conversationId := conversationId s;
     isTyping := isTyping s;
     inputText := inputText s;
     pendingAttachments := [];
     error := error s |}.

Definition clearMessages (s : ChatState) : ChatState :=
  {| messages := [];
     conversationId := None;
     isTyping := isTyping s;
     inputText := inputText s;
     pendingAttachments := pendingAttachments s;
     error := error s |}.

Definition setError (e : option string) (s : ChatState) : ChatState :=
  {| messages := messages s;
     conversationId := conversationId s;
     isTyping := isTyping s;
     inputText := inputText s;
     pendingAttachments := pendingAttachments s;
     error := e |}.

Definition newConversation (clk : Clock) (s : ChatState) : ChatState :=
  {| messages := [];
     conversationId := Some (generateConversationId clk);
     isTyping := isTyping s;
     inputText := "";
     pendingAttachments := [];
     error := None |}.

(** [handleFileUpload] once [uploadFile] has settled, with the object URL
    it produced; the returned attachment is the promise's value. *)
Definition handleFileUpload (f : File) (upload : Settled string) (clk : Clock)
    (s : ChatState) : ChatState * option Attachment :=
  match upload with
  | Fulfilled url =>
      let attachment :=
        {| att_id := generateAttachmentId clk;
           att_name := file_name f;
           att_type := file_type f;
           att_size := file_size f;
           att_url := url;
           att_preview :=
             if startsWith (file_type f) "image/" then Some url else None |} in
      (addAttachment attachment s, Some attachment)
  | Rejected =>
      (setError (Some "Failed to upload file. Please try again.") s, None)
  end.

(** Every way the store's state is written: one constructor per action,
    the two halves of [sendMessage] apart. *)
Inductive Action : Type :=
| SendMessageBegin (content : string) (attachments : list Attachment) (clk : Clock)
| SendMessageSettle (k : SendInFlight) (outcome : Settled AIAgentResponse)
    (clk clk' : Clock)
| AddMessage (message : Message)
| SetInputText (t : string)
| AddAttachment (attachment : Attachment)
| RemoveAttachment (id : string)
| ClearAttachments
| ClearMessages
| SetError (e : option string)
| NewConversation (clk : Clock)
| HandleFileUpload (f : File) (upload : Settled string) (clk : Clock).

Definition step (a : Action) (s : ChatState) : ChatState :=
  match a with
  | SendMessageBegin content attachments clk =>
      fst (sendMessage_begin content attachments clk s)
  | SendMessageSettle k outcome clk clk' => sendMessage_settle k outcome clk clk' s
  | AddMessage m => addMessage m s
  | SetInputText t => setInputText t s
  | AddAttachment a => addAttachment a s
  | RemoveAttachment id => removeAttachment id s
  | ClearAttachments => clearAttachments s
  | ClearMessages => clearMessages s
  | SetError e => setError e s
  | NewConversation clk => newConversation clk s
  | HandleFileUpload f upload clk => fst (handleFileUpload f upload clk s)
  end.

Definition run (acts : list Action) (s : ChatState) : ChatState :=
  fold_left (fun s a => step a s) acts s.

Definition replacesMessages (a : Action) : bool :=
  match a with
  | ClearMessages | NewConversation _ => true
  | _ => false
  end.

End ChatStore.

(* ===================================================================== *)
(** * app/chat/hooks/useChat.ts *)
(* ===================================================================== *)

Module UseChat.
Import JsString Types ChatStore.

(** The hook's [sendMessage].  [rendered] is the store snapshot the hook
    destructured when the component rendered ([pendingAttachments] is
    read from it); [s] is the store when the call runs.  The result
    carries the in-flight half of the store's [sendMessage], if any. *)
Definition sendMessage (rendered : ChatState) (content : string) (clk : Clock)
    (s : ChatState) : ChatState * option SendInFlight :=
  if negb (truthy (trim content))
     && (length (pendingAttachments rendered) =? 0)%nat
  then (s, None)
  else
    let '(s', k) := sendMessage_begin content (pendingAttachments rendered) clk s in
    (s', Some k).

End UseChat.

(* ===================================================================== *)
(** * app/chat/hooks/useUploadHandler.ts *)
(* ===================================================================== *)

Module UploadHandler.
Import Types Validators.

Record UploadState : Type := mkUploadState {
  isDragging : bool;
  uploadError : option string;
  dragCounter : Z
}.

Section WithCallback.
(** The state the [onFileSelect] callback acts on, and the callback. *)
Context {W : Type} (onFileSelect : File -> W -> W).

(** [files] is [e.dataTransfer?.files]. *)
Definition handleDrop (files : option (list File)) (h : UploadState) (w : W)
  : UploadState * W :=
  let h := {| isDragging := false; uploadError := uploadError h; dragCounter := 0 |} in
  match files with
  | Some (f :: _) =>
      let validation := validateFile f in
      if valid validation then
        ({| isDragging := isDragging h; uploadError := None;
            dragCounter := dragCounter h |},
         onFileSelect f w)
      else
        ({| isDragging := isDragging h;
            uploadError :=
              Some (if JsString.truthyOpt (Validators.error validation)
                    then default "" (Validators.error validation)
                    else "Invalid file");
            dragCounter := dragCounter h |},
         w)
  | _ => (h, w)
  end.

Definition handleFileSelect (files : option (list File)) (h : UploadState) (w : W)
  : UploadState * W :=
  match files with
  | Some (f :: _) =>
      let validation := validateFile f in
      if valid validation then
        ({| isDragging := isDragging h; uploadError := None;
            dragCounter := dragCounter h |},
         onFileSelect f w)
      else
        ({| isDragging := isDragging h;
            uploadError :=
              Some (if JsString.truthyOpt (Validators.error validation)
                    then default "" (Validators.error validation)
                    else "Invalid file");
            dragCounter := dragCounter h |},
         w)
  | _ => (h, w)
  end.
End WithCallback.

(** The callback the chat input passes: the store's [handleFileUpload]
    with the object URL the browser hands out for the file. *)
Definition onFileUpload (urlOf : File -> Settled string) (clk : Clock)
    (f : File) (s : ChatStore.ChatState) : ChatStore.ChatState :=
  fst (ChatStore.handleFileUpload f (urlOf f) clk s).

End UploadHandler.

(* ===================================================================== *)
(** * app/chat/hooks/useVoiceRecorder.ts *)
(* ===================================================================== *)

Module VoiceRecorder.
Import Types.

Inductive RecordingState : Type := inactive | recording | paused.

Inductive TrackState : Type := live | ended.

(** The [data] blob of one [dataavailable] event. *)
Record Chunk : Type := mkChunk { chunk_size : N }.

(** [new Blob(chunks, { type })] *)
Record Blob : Type := mkBlob {
  blob_parts : list Chunk;
  blob_type : string
}.

(** A [MediaRecorder] object of the browser.  [ondataavailable] and
    [onstop] tell whether the hook's handlers (lines 61-65 and 98-109)
    are installed.  [stopQueued] is the browser's side of [stop()], as
    the W3C MediaStream Recording specification gives it: on a recorder
    that is not inactive the method makes it inactive and queues a task
    that fires a final [dataavailable] event with the data gathered so
    far, then a [stop] event. *)
Record MediaRecorder : Type := mkMediaRecorder {
  state : RecordingState;
  ondataavailable : bool;
  onstop : bool;
  stopQueued : bool
}.

(** The hook's React state and refs, the browser objects they point to
    (recorders, streams and interval timers, addressed by index), and
    the values the [stopRecording] promises have resolved with. *)
Record World : Type := mkWorld {
  isRecording : bool;
  recordingDuration : Z;
  recordingError : option string;
  mediaRecorderRef : option nat;
  chunksRef : list Chunk;
  timerRef : option nat;
  streamRef : option nat;
  recorders : list MediaRecorder;
  streams : list (list TrackState);
  intervals : list bool;
  resolved : list (option Blob)
}.

Definition initialWorld : World :=
  {| isRecording := false; recordingDuration := 0; recordingError := None;
     mediaRecorderRef := None; chunksRef := []; timerRef := None;
     streamRef := None; recorders := []; streams := []; intervals := [];
     resolved := [] |}.

Definition setIsRecording (b : bool) (w : World) : World :=
  mkWorld b (recordingDuration w) (recordingError w) (mediaRecorderRef w)
    (chunksRef w) (timerRef w) (streamRef w) (recorders w) (streams w)
    (intervals w) (resolved w).

Definition setRecordingDuration (d : Z) (w : World) : World :=
  mkWorld (isRecording w) d (recordingError w) (mediaRecorderRef w)
    (chunksRef w) (timerRef w) (streamRef w) (recorders w) (streams w)
    (intervals w) (resolved w).

Definition setRecordingError (e : option string) (w : World) : World :=
  mkWorld (isRecording w) (recordingDuration w) e (mediaRecorderRef w)
    (chunksRef w) (timerRef w) (streamRef w) (recorders w) (streams w)
    (intervals w) (resolved w).

Definition setMediaRecorderRef (r : option nat) (w : World) : World :=
  mkWorld (isRecording w) (recordingDuration w) (recordingError w) r
    (chunksRef w) (timerRef w) (streamRef w) (recorders w) (streams w)
    (intervals w) (resolved w).

Definition setChunksRef (c : list Chunk) (w : World) : World :=
  mkWorld (isRecording w) (recordingDuration w) (recordingError w)
    (mediaRecorderRef w) c (timerRef w) (streamRef w) (recorders w)
    (streams w) (intervals w) (resolved w).

Definition setTimerRef (t : option nat) (w : World) : World :=
  mkWorld (isRecording w) (recordingDuration w) (recordingError w)
    (mediaRecorderRef w) (chunksRef w) t (streamRef w) (recorders w)
    (streams w) (intervals w) (resolved w).

Definition setStreamRef (st : option nat) (w : World) : World :=
  mkWorld (isRecording w) (recordingDuration w) (recordingError w)
    (mediaRecorderRef w) (chunksRef w) (timerRef w) st (recorders w)
    (streams w) (intervals w) (resolved w).

Definition setRecorders (rs : list MediaRecorder) (w : World) : World :=
  mkWorld (isRecording w) (recordingDuration w) (recordingError w)
    (mediaRecorderRef w) (chunksRef w) (timerRef w) (streamRef w) rs
    (streams w) (intervals w) (resolved w).

Definition setStreams (ss : list (list TrackState)) (w : World) : World :=
  mkWorld (isRecording w) (recordingDuration w) (recordingError w)
    (mediaRecorderRef w) (chunksRef w) (timerRef w) (streamRef w)
    (recorders w) ss (intervals w) (resolved w).

Definition setIntervals (ts : list bool) (w : World) : World :=
  mkWorld (isRecording w) (recordingDuration w) (recordingError w)
    (mediaRecorderRef w) (chunksRef w) (timerRef w) (streamRef w)
    (recorders w) (streams w) ts (resolved w).

(** [resolve(v)] of a [stopRecording] promise *)
Definition resolve (v : option Blob) (w : World) : World :=
  mkWorld (isRecording w) (recordingDuration w) (recordingError w)
    (mediaRecorderRef w) (chunksRef w) (timerRef w) (streamRef w)
    (recorders w) (streams w) (intervals w) (resolved w ++ [v])%list.

(** ** Browser primitives *)

Definition clearInterval (t : nat) (w : World) : World :=
  setIntervals (<[t := false]> (intervals w)) w.

(** [setInterval]: a fresh active timer; its id is returned. *)
Definition setInterval (w : World) : World * nat :=
  (setIntervals (intervals w ++ [true])%list w, length (intervals w)).

(** [stream.getTracks().forEach((track) => track.stop())] *)
Definition stopTracks (st : nat) (w : World) : World :=
  match streams w !! st with
  | Some tracks => setStreams (<[st := List.map (fun _ => ended) tracks]> (streams w)) w
  | None => w
  end.

(** [recorder.stop()]: nothing on an inactive recorder; otherwise the
    recorder becomes inactive and its final events are queued. *)
Definition recorderStop (r : nat) (w : World) : World :=
  match recorders w !! r with
  | Some rec =>
      match state rec with
      | inactive => w
      | _ =>
          setRecorders
            (<[r := {| state := inactive;
                       ondataavailable := ondataavailable rec;
                       onstop := onstop rec;
                       stopQueued := true |}]> (recorders w)) w
      end
  | None => w
  end.

(** ** The hook's event handlers *)

(** [mediaRecorder.ondataavailable], lines 61-65 *)
Definition onDataAvailable (data : Chunk) (w : World) : World :=
  if (0 <? chunk_size data)%N then setChunksRef (chunksRef w ++ [data])%list w
  else w.

(** [mediaRecorderRef.current.onstop], lines 98-109 *)
Definition onStop (w : World) : World :=
  let blob := {| blob_parts := chunksRef w; blob_type := "audio/webm" |} in
  let w := match streamRef w with Some st => stopTracks st w | None => w end in
  let w := setStreamRef None w in
  let w := setMediaRecorderRef None w in
  let w := setIsRecording false w in
  let w := setRecordingDuration 0 w in
  resolve (Some blob) w.

(** The interval callback, line 73 *)
Definition onTick (w : World) : World :=
  setRecordingDuration (recordingDuration w + 1) w.

(** ** The hook's functions *)

(** [startRecording] up to [await getUserMedia] *)
Definition startRecording_begin (w : World) : World :=
  setChunksRef [] (setRecordingError None w).

(** [startRecording] once [getUserMedia] has settled.  [tracks] are the
    tracks of the granted stream; [webmSupported] tells whether the
    [MediaRecorder] constructor accepts 'audio/webm' (it throws
    otherwise, into the [catch]). *)
Definition startRecording_settle (media : Settled (list TrackState))
    (webmSupported : bool) (w : World) : World :=
  let denied :=
    setRecordingError
      (Some "Microphone access denied. Please allow microphone access to record voice messages.") in
  match media with
  | Rejected => denied w
  | Fulfilled tracks =>
      let st := length (streams w) in
      let w := setStreams (streams w ++ [tracks])%list w in
      let w := setStreamRef (Some st) w in
      if webmSupported then
        let r := length (recorders w) in
        let w :=
          setRecorders
            (recorders w ++
               [{| state := recording; ondataavailable := true;
                   onstop := false; stopQueued := false |}])%list w in
        let w := setMediaRecorderRef (Some r) w in
        let w := setIsRecording true w in
        let w := setRecordingDuration 0 w in
        let '(w, t) := setInterval w in
        setTimerRef (Some t) w
      else denied w
  end.

Definition stopRecording (w : World) : World :=
  match mediaRecorderRef w, streamRef w with
  | Some r, Some _ =>
      let w :=
        match timerRef w with
        | Some t => setTimerRef None (clearInterval t w)
        | None => w
        end in
      let w :=
        match recorders w !! r with
        | Some rec =>
            setRecorders
              (<[r := {| state := state rec;
                         ondataavailable := ondataavailable rec;
                         onstop := true;
                         stopQueued := stopQueued rec |}]> (recorders w)) w
        | None => w
        end in
      recorderStop r w
  | _, _ => resolve None w
  end.

Definition cancelRecording (w : World) : World :=
  let w :=
    match timerRef w with
    | Some t => setTimerRef None (clearInterval t w)
    | None => w
    end in
  let w :=
    match mediaRecorderRef w with
    | Some r =>
        match recorders w !! r with
        | Some rec =>
            match state rec with
            | inactive => w
            | _ => recorderStop r w
            end
        | None => w
        end
    | None => w
    end in
  let w :=
    match streamRef w with
    | Some st => setStreamRef None (stopTracks st w)
    | None => w
    end in
  let w := setMediaRecorderRef None w in
  let w := setChunksRef [] w in
  let w := setIsRecording false w in
  setRecordingDuration 0 w.

(** ** What the browser does on its own *)

(** What the browser may do between two calls of the hook's functions:
    fire an interval timer, fire a time-slice [dataavailable] event on a
    recorder, or run the task queued by [stop()], which fires the final
    [dataavailable] event and then the [stop] event. *)
Inductive BrowserEvent : Type :=
| Tick (t : nat)
| TimeSlice (r : nat) (data : Chunk)
| StopTask (r : nat) (data : Chunk).

Definition enabled (e : BrowserEvent) (w : World) : bool :=
  match e with
  | Tick t => bool_decide (intervals w !! t = Some true)
  | TimeSlice r _ =>
      match recorders w !! r with
      | Some rec => match state rec with recording => true | _ => false end
      | None => false
      end
  | StopTask r _ =>
      match recorders w !! r with
      | Some rec => stopQueued rec
      | None => false
      end
  end.

Definition fire (e : BrowserEvent) (w : World) : World :=
  if enabled e w then
    match e with
    | Tick _ => onTick w
    | TimeSlice r data =>
        match recorders w !! r with
        | Some rec => if ondataavailable rec then onDataAvailable data w else w
        | None => w
        end
    | StopTask r data =>
        match recorders w !! r with
        | Some rec =>
            let w :=
              setRecorders
                (<[r := {| state := state rec;
                           ondataavailable := ondataavailable rec;
                           onstop := onstop rec;
                           stopQueued := false |}]> (recorders w)) w in
            let w := if ondataavailable rec then onDataAvailable data w else w in
            if onstop rec then onStop w else w
        | None => w
        end
    end
  else w.

Definition fireAll (es : list BrowserEvent) (w : World) : World :=
  fold_left (fun w e => fire e w) es w.

End VoiceRecorder.

(* ===================================================================== *)
(** * Anchored patterns and counted repetition *)
(* ===================================================================== *)

Module RegexExt.
Import JsString Regex.

(** [/^r$/.test(s)]: the whole of [s] matches [r]. *)
Fixpoint testExact (r : regex) (s : string) : bool :=
  match s with
  | EmptyString => nullable r
  | String c s' => testExact (deriv c r) s'
  end.

(** A pattern character without the [i] flag. *)
Definition chr (p : ascii) : regex := Cls (Ascii.eqb p).

(** [r+], [r?], [r{n}] and [r{n,}] *)
Definition plus (r : regex) : regex := Cat r (Star r).

Definition opt (r : regex) : regex := Alt r Eps.

Fixpoint times (n : nat) (r : regex) : regex :=
  match n with
  | O => Eps
  | S n' => Cat r (times n' r)
  end.

Definition atLeast (n : nat) (r : regex) : regex := Cat (times n r) (Star r).

(** The class [\d]: the digits 0-9. *)
Definition isDigit (c : ascii) : bool := between 48 57 (charCode c).

End RegexExt.

(* ===================================================================== *)
(** * src/lib/validators.ts: the form validators *)
(* ===================================================================== *)

Module FormValidators.
Import JsString Regex RegexExt.

(** The class [[^\s@]] *)
Definition notSpaceNorAt (c : ascii) : bool :=
  negb (isWhiteSpace c || Ascii.eqb c "@").

(** [/^[^\s@]+@[^\s@]+\.[^\s@]+$/] *)
Definition emailRegex : regex :=
  Cat (plus (Cls notSpaceNorAt))
    (Cat (chr "@")
       (Cat (plus (Cls notSpaceNorAt))
          (Cat (chr ".") (plus (Cls notSpaceNorAt))))).

Definition isValidEmail (email : string) : bool := testExact emailRegex email.

(** The class [[\d\s-]] *)
Definition digitSpaceOrHyphen (c : ascii) : bool :=
  isDigit c || isWhiteSpace c || Ascii.eqb c "-".

(** [/^\+?[\d\s-]{10,}$/] *)
Definition mobileRegex : regex :=
  Cat (opt (chr "+")) (atLeast 10 (Cls digitSpaceOrHyphen)).

Definition isValidMobile (mobile : string) : bool := testExact mobileRegex mobile.

Definition isValidPassword (password : string) : bool :=
  (6 <=? String.length password)%nat.

Definition doPasswordsMatch (password confirmPassword : string) : bool :=
  String.eqb password confirmPassword.

Definition isValidName (name : string) : bool :=
  (2 <=? String.length (trim name))%nat.

Module ValidationMessages.
Definition emailRequired : string := "Email is required".
Definition emailInvalid : string := "Please enter a valid email address".
Definition passwordRequired : string := "Password is required".
Definition passwordTooShort : string := "Password must be at least 6 characters".
Definition passwordsDoNotMatch : string := "Passwords do not match".
Definition nameRequired : string := "Name is required".
Definition nameTooShort : string := "Name must be at least 2 characters".
Definition mobileRequired : string := "Mobile number is required".
Definition mobileInvalid : string := "Please enter a valid mobile number".
End ValidationMessages.

End FormValidators.

(* ===================================================================== *)
(** * The user store *)
(* ===================================================================== *)

Module UserStore.
Import Types Auth.

(** The store's state.  Its [persist] copy under 'user-storage' is not
    modelled: nothing in the sources reads it back but the store's own
    rehydration. *)
Record UserState : Type := mkUserState {
  user : option jsobj;
  isLoading : bool;
  isInitialized : bool
}.

Definition initialState : UserState :=
  {| user := None; isLoading := false; isInitialized := false |}.

Definition setUser (u : option jsobj) (s : UserState) : UserState :=
  {| user := u; isLoading := isLoading s; isInitialized := isInitialized s |}.

(** [logout]: [authLogout()] on the browser storage, then the store. *)
Definition logout (w : Window) (s : UserState) : Window * UserState :=
  (logoutUser w,
   {| user := None; isLoading := isLoading s; isInitialized := isInitialized s |}).

Definition initialize (w : Window) (s : UserState) : UserState :=
  {| user := getCurrentUser w; isLoading := isLoading s; isInitialized := true |}.

Definition setLoading (b : bool) (s : UserState) : UserState :=
  {| user := user s; isLoading := b; isInitialized := isInitialized s |}.

End UserStore.

(* ===================================================================== *)
(** * app/auth/register/page.tsx and app/auth/login/page.tsx *)
(* ===================================================================== *)

Module AuthPages.
Import JsString Types Auth FormValidators.

Record FormErrors : Type := mkFormErrors {
  e_name : option string;
  e_email : option string;
  e_mobile : option string;
  e_password : option string;
  e_confirmPassword : option string;
  e_general : option string
}.

(** The empty object [{}] *)
Definition noErrors : FormErrors := mkFormErrors None None None None None None.

(** [Object.keys(errors).length === 0] *)
Definition isEmpty (e : FormErrors) : bool :=
  match e with
  | mkFormErrors None None None None None None => true
  | _ => false
  end.

(** What a page holds besides its input fields, and what it reaches of
    the rest of the application: the user store, the browser storage and
    the router's current path. *)
Record Page : Type := mkPage {
  errors : FormErrors;
  isLoading : bool;
  store : UserStore.UserState;
  window : Window;
  path : string
}.

Definition setErrors (e : FormErrors) (p : Page) : Page :=
  mkPage e (isLoading p) (store p) (window p) (path p).

Definition setIsLoading (b : bool) (p : Page) : Page :=
  mkPage (errors p) b (store p) (window p) (path p).

(** ** The registration page *)

Module Register.

(** [validateForm], on the values of the five input fields: the errors
    it sets and the boolean it returns. *)
Definition validateForm (f : RegisterFormData) : FormErrors * bool :=
  let newErrors :=
    {| e_name :=
         if negb (isValidName (rf_name f))
         then Some ValidationMessages.nameTooShort else None;
       e_email :=
         if negb (isValidEmail (rf_email f))
         then Some ValidationMessages.emailInvalid else None;
       e_mobile :=
         if negb (isValidMobile (rf_mobile f))
         then Some ValidationMessages.mobileInvalid else None;
       e_password :=
         if negb (isValidPassword (rf_password f))
         then Some ValidationMessages.passwordTooShort else None;
       e_confirmPassword :=
         if negb (doPasswordsMatch (rf_password f) (rf_confirmPassword f))
         then Some ValidationMessages.passwordsDoNotMatch else None;
       e_general := None |} in
  (newErrors, isEmpty newErrors).

(** [handleSubmit] up to its [await]: [None] when it returns early. *)
Definition handleSubmit_begin (f : RegisterFormData) (p : Page)
  : Page * option RegisterFormData :=
  let '(newErrors, ok) := validateForm f in
  let p := setErrors newErrors p in
  if negb ok then (p, None)
  else (setErrors noErrors (setIsLoading true p), Some f).

(** [handleSubmit] from the body of [registerUser] (after its delay) to
    the end of the [finally] block. *)
Definition handleSubmit_settle (f : RegisterFormData) (clk : Clock) (p : Page) : Page :=
  let '(w, result) := registerUser f clk (window p) in
  let p := mkPage (errors p) (isLoading p) (store p) w (path p) in
  let p :=
    match success result, Auth.user result with
    | true, Some u =>
        mkPage (errors p) (isLoading p) (UserStore.setUser (Some u) (store p))
          (window p) "/chat"
    | _, _ =>
        setErrors
          (mkFormErrors None None None None None
             (Some (if truthyOpt (Auth.error result)
                    then default "" (Auth.error result)
                    else "Registration failed"))) p
    end in
  setIsLoading false p.

(** A submission that nothing interrupts. *)
Definition handleSubmit (f : RegisterFormData) (clk : Clock) (p : Page) : Page :=
  match handleSubmit_begin f p with
  | (p, Some f) => handleSubmit_settle f clk p
  | (p, None) => p
  end.

End Register.

(** ** The login page *)

Module Login.

Definition validateForm (f : LoginFormData) : FormErrors * bool :=
  let newErrors :=
    {| e_name := None;
       e_email :=
         if negb (isValidEmail (lf_email f))
         then Some ValidationMessages.emailInvalid else None;
       e_mobile := None;
       e_password :=
         if negb (truthy (lf_password f))
         then Some ValidationMessages.passwordRequired else None;
       e_confirmPassword := None;
       e_general := None |} in
  (newErrors, isEmpty newErrors).

Definition handleSubmit_begin (f : LoginFormData) (p : Page)
  : Page * option LoginFormData :=
  let '(newErrors, ok) := validateForm f in
  let p := setErrors newErrors p in
  if negb ok then (p, None)
  else (setErrors noErrors (setIsLoading true p), Some f).

Definition handleSubmit_settle (f : LoginFormData) (p : Page) : Page :=
  let '(w, result) := loginUser f (window p) in
  let p := mkPage (errors p) (isLoading p) (store p) w (path p) in
  let p :=
    match success result, Auth.user result with
    | true, Some u =>
        mkPage (errors p) (isLoading p) (UserStore.setUser (Some u) (store p))
          (window p) "/chat"
    | _, _ =>
        setErrors
          (mkFormErrors None None None None None
             (Some (if truthyOpt (Auth.error result)
                    then default "" (Auth.error result)
                    else "Login failed"))) p
    end in
  setIsLoading false p.

Definition handleSubmit (f : LoginFormData) (p : Page) : Page :=
  match handleSubmit_begin f p with
  | (p, Some f) => handleSubmit_settle f p
  | (p, None) => p
  end.

End Login.

End AuthPages.

(* ===================================================================== *)
(** * formatMessageHistory *)
(* ===================================================================== *)

Module AgentHistory.
Import Types.

(** [messages.slice(-n)] *)
Definition sliceLast {A} (n : nat) (l : list A) : list A :=
  drop (length l - n) l.

(** The object the [map] callback builds: five fields, no attachments,
    no loading flag. *)
Definition strip (msg : Message) : Message :=
  {| msg_id := msg_id msg;
     msg_role := msg_role msg;
     msg_content := msg_content msg;
     msg_contentType := msg_contentType msg;
     msg_attachments := None;
     msg_timestamp := msg_timestamp msg;
     msg_isLoading := None |}.

Definition formatMessageHistory (messages : list Message) : list Message :=
  List.map strip (sliceLast 10 messages).

End AgentHistory.

(* ===================================================================== *)
(** * useUploadHandler.ts: the drag handlers *)
(* ===================================================================== *)

Module DragHandlers.
Import UploadHandler.

(** [hasItems] is [e.dataTransfer?.items && e.dataTransfer.items.length > 0]. *)
Definition handleDragEnter (hasItems : bool) (h : UploadState) : UploadState :=
  {| isDragging := if hasItems then true else isDragging h;
     uploadError := uploadError h;
     dragCounter := dragCounter h + 1 |}.

(** [rendered] is the [dragCounter] the callback closed over: the value
    of the render that created it. *)
Definition handleDragLeave (rendered : Z) (h : UploadState) : UploadState :=
  {| isDragging := if (rendered - 1 =? 0)%Z then false else isDragging h;
     uploadError := uploadError h;
     dragCounter := dragCounter h - 1 |}.

Definition handleDragOver (h : UploadState) : UploadState := h.

Definition clearUploadError (h : UploadState) : UploadState :=
  {| isDragging := isDragging h; uploadError := None; dragCounter := dragCounter h |}.

(** The drag events of one gesture, each handled after the component has
    re-rendered, so that [handleDragLeave] sees the current counter. *)
Inductive DragEvent : Type :=
| Enter (hasItems : bool)
| Leave
| Over.

Definition handle (e : DragEvent) (h : UploadState) : UploadState :=
  match e with
  | Enter hasItems => handleDragEnter hasItems h
  | Leave => handleDragLeave (dragCounter h) h
  | Over => handleDragOver h
  end.

Definition handleAll (es : list DragEvent) (h : UploadState) : UploadState :=
  fold_left (fun h e => handle e h) es h.

End DragHandlers.

(* ===================================================================== *)
(** * The chat input and the recorder button *)
(* ===================================================================== *)

Module ChatInput.
Import JsString Types VoiceRecorder.

(** [blob.size] of an assembled blob *)
Definition blobSize (b : Blob) : N :=
  fold_right (fun c acc => (chunk_size c + acc)%N) 0%N (blob_parts b).

Section WithCallbacks.
Context {W : Type} (onFileUpload : File -> W -> W) (onSend : W -> W).

(** [handleStopRecording] once [stopRecording()] has resolved with
    [audioBlob]; [now] is [Date.now()]. *)
Definition handleStopRecording (audioBlob : option Blob) (now : N) (w : W) : W :=
  match audioBlob with
  | Some blob =>
      let file :=
        {| file_name := "voice-message-" +:+ pretty now +:+ ".webm";
           file_type := "audio/webm";
           file_size := blobSize blob |} in
      onFileUpload file w
  | None => w
  end.

(** [canSend] *)
Definition canSend (disabled : bool) (value : string) (attachments : list Attachment)
  : bool :=
  negb disabled && (truthy (trim value) || (0 <? length attachments)%nat).

(** [handleKeyDown], on the event's [key] and [shiftKey]. *)
Definition handleKeyDown (key : string) (shiftKey : bool) (disabled : bool)
    (value : string) (attachments : list Attachment) (w : W) : W :=
  if String.eqb key "Enter" && negb shiftKey then
    if negb disabled && (truthy (trim value) || (0 <? length attachments)%nat)
    then onSend w else w
  else w.

End WithCallbacks.

End ChatInput.

Module VoiceView.
Import JsString.

(** [s.padStart(n, c)] for a one-character pad *)
Definition padStart (n : nat) (c : ascii) (s : string) : string :=
  let fix pad k := match k with O => s | S k' => String c (pad k') end in
  pad (n - String.length s)%nat.

(** [formatDuration], on a whole number of seconds *)
Definition formatDuration (seconds : N) : string :=
  let mins := (seconds / 60)%N in
  let secs := (seconds mod 60)%N in
  padStart 2 "0" (pretty mins) +:+ ":" +:+ padStart 2 "0" (pretty secs).

End VoiceView.

(* ===================================================================== *)
(** * formatFileSize (FilePreview and MessageBubble) *)
(* ===================================================================== *)

Module FilePreview.

(** [(bytes / d).toFixed(1)] for [d] = 1024 or 1024 * 1024.  Dividing an
    integer below 2^53 by a power of two is exact in double precision, and
    [toFixed(1)] takes the integer [n] with [n / 10] nearest to that exact
    quotient, the larger one on a tie: [n] is the floor of
    [(10 * bytes + d / 2) / d].  It then prints [n] with one digit after
    the point. *)
Definition tenths (bytes d : N) : N := ((10 * bytes + d / 2) / d)%N.

Definition toFixed1 (bytes d : N) : string :=
  pretty (tenths bytes d / 10)%N +:+ "." +:+ pretty (tenths bytes d mod 10)%N.

Definition formatFileSize (bytes : N) : string :=
  if (bytes <? 1024)%N then pretty bytes +:+ " B"
  else if (bytes <? 1024 * 1024)%N then toFixed1 bytes 1024 +:+ " KB"
  else toFixed1 bytes (1024 * 1024) +:+ " MB".

End FilePreview.

(* ===================================================================== *)
(** * Vocabulary of the statements *)
(* ===================================================================== *)

(** The predicates, constants and sample data the theorems below are
    stated with.  Nothing here is part of the program. *)

Module ValidatorsSpec.
Import Types Validators.

(** The fixed allow-list: images, documents, audio. *)
Definition allowList : list string :=
  (AllowedFileTypes.images ++ AllowedFileTypes.documents
     ++ AllowedFileTypes.audio)%list.

Definition typeError : string := "File type not supported".
Definition sizeError : string := "File size exceeds 10MB limit".

(** A 20 MB archive: too large and of a type outside the allow-list. *)
Definition oversizedZip : File :=
  {| file_name := "backup.zip"; file_type := "application/zip";
     file_size := 20971520 |}.

(** A 20 MB PDF and a 4 KB PNG. *)
Definition oversizedPdf : File :=
  {| file_name := "scan.pdf"; file_type := "application/pdf";
     file_size := 20971520 |}.

Definition smallPng : File :=
  {| file_name := "logo.png"; file_type := "image/png"; file_size := 4096 |}.

End ValidatorsSpec.

Module AuthSpec.
Import Types Auth.

(** Some stored user already has this email. *)
Definition emailTaken (users : list jsobj) (email : string) : Prop :=
  exists u, u ∈ users /\ u !! "email" = Some email.

(** A stored record matches both the email and the password. *)
Definition credentialsMatch (data : LoginFormData) (u : jsobj) : Prop :=
  u !! "email" = Some (lf_email data) /\ u !! "password" = Some (lf_password data).

Definition duplicateEmail : AuthResult :=
  {| success := false; user := None; error := Some "Email already registered" |}.

Definition invalidCredentials : AuthResult :=
  {| success := false; user := None; error := Some "Invalid email or password" |}.

(** Sample data for the examples. *)
Definition ada : jsobj :=
  {[ "id" := "user_1_abc"; "name" := "Ada"; "email" := "ada@example.org";
     "mobile" := "0123456789"; "password" := "s3cret!";
     "createdAt" := "2024-01-01T00:00:00.000Z" ]}.

Definition adaStore : LocalStorage :=
  {| ai_chat_users := Some [ada]; ai_chat_current_user := None |}.

End AuthSpec.

Module ChatSpec.
Import JsString Types ChatStore.

(** The text consists of white space only (the empty text included). *)
Fixpoint whitespaceOnly (s : string) : bool :=
  match s with
  | EmptyString => true
  | String c s' => isWhiteSpace c && whitespaceOnly s'
  end.

Definition sendFailure : string := "Failed to send message. Please try again.".

(** The action is the completion of a [sendMessage] call. *)
Definition isSettle (a : Action) : bool :=
  match a with
  | SendMessageSettle _ _ _ _ => true
  | _ => false
  end.

Definition clockC : Clock := mkClock 1700000000400 "m4n5b6v7c" "2023-11-14T22:13:20.400Z".
Definition clockD : Clock := mkClock 1700000001200 "z1x2c3v4b" "2023-11-14T22:13:21.200Z".

(** The roles and texts of a message list. *)
Definition rolesAndTexts (l : list Message) : list (Role * option string) :=
  map (fun m => (msg_role m, msg_content m)) l.

(** A complete, uninterrupted [sendMessage] against the mock agent:
    [rnd] is the value [Math.random()] returns inside the agent. *)
Definition sendMessage_run (content : string) (attachments : list Attachment)
    (clk0 : Clock) (rnd : Double.double) (clk1 clk2 : Clock) (s : ChatState)
    : ChatState :=
  let '(s1, k) := sendMessage_begin content attachments clk0 s in
  sendMessage_settle k (Fulfilled (AiAgent.sendToAIAgent (sf_payload k) rnd))
    clk1 clk2 s1.

Definition clockA : Clock := mkClock 1700000000000 "k3j9x0q2a" "2023-11-14T22:13:20.000Z".
Definition clockB : Clock := mkClock 1700000000800 "p0o9i8u7y" "2023-11-14T22:13:20.800Z".

Definition photo : Attachment :=
  {| att_id := "att_1"; att_name := "cat.png"; att_type := "image/png";
     att_size := 2048; att_url := "blob:cat"; att_preview := Some "blob:cat" |}.

End ChatSpec.

Module AgentSpec.
Import JsString Regex Types AiAgent.






(** A value [Math.random()] can return: a double that is at least 0
    and less than 1. *)
Definition randomValue (rnd : Double.double) : Prop :=
  Double.finite rnd /\ (Double.value rnd < 1)%Q.






Definition withText (msg : string) (atts : option (list Attachment)) : AIAgentPayload :=
  {| pl_message := msg; pl_attachments := atts;
     pl_conversationId := None; pl_messageHistory := None |}.

End AgentSpec.

Module VoiceSpec.
Import Types VoiceRecorder.

(** A recording is in progress: the hook holds a recording recorder
    with its data handler installed and no stop requested, a stream, a
    running timer, and shows the recording flag. *)
Definition recordingInProgress (w : World) : Prop :=
  isRecording w = true /\
  exists r st t tracks,
    mediaRecorderRef w = Some r /\
    streamRef w = Some st /\
    timerRef w = Some t /\
    recorders w !! r =
      Some {| state := recording; ondataavailable := true;
              onstop := false; stopQueued := false |} /\
    streams w !! st = Some tracks /\
    intervals w !! t = Some true.

(** The hook right after a successful [startRecording] on a fresh page:
    one live audio track, recorder 0 recording, timer 0 running. *)
Definition freshRecording : World :=
  startRecording_settle (Fulfilled [live]) true (startRecording_begin initialWorld).

(** The same after two time slices delivered data. *)
Definition recordingWithChunks : World :=
  fireAll [TimeSlice 0 (mkChunk 320); Tick 0; TimeSlice 0 (mkChunk 288)] freshRecording.

(** The record button pressed twice before the first [getUserMedia]
    resolves: both calls of [startRecording] run to their end, and the
    hook's references point to the second recorder, stream and timer. *)
Definition startedTwice : World :=
  startRecording_settle (Fulfilled [live]) true
    (startRecording_settle (Fulfilled [live]) true
       (startRecording_begin (startRecording_begin initialWorld))).

End VoiceSpec.

Module AuthFlowSpec.
Import Types Auth.

(** The record [registerUser] stores for a submission. *)
Definition newUserOf (data : RegisterFormData) (clk : Clock) : jsobj :=
  {[ "id" := generateUserId clk;
     "name" := rf_name data;
     "email" := rf_email data;
     "mobile" := rf_mobile data;
     "password" := rf_password data;
     "createdAt" := isoString clk ]}.

(** Logging in with what was typed at registration. *)
Definition credentialsOf (data : RegisterFormData) : LoginFormData :=
  {| lf_email := rf_email data; lf_password := rf_password data |}.

(** The emails of the stored records, in order. *)
Definition emails (users : list jsobj) : list string :=
  omap (fun u : jsobj => u !! "email") users.

(** The calls a page can make into auth.ts. *)
Inductive AuthOp : Type :=
| Register (data : RegisterFormData) (clk : Clock)
| Login (data : LoginFormData)
| Logout.

Definition authStep (op : AuthOp) (w : Window) : Window :=
  match op with
  | Register data clk => (registerUser data clk w).1
  | Login data => (loginUser data w).1
  | Logout => logoutUser w
  end.

Definition authRun (ops : list AuthOp) (w : Window) : Window :=
  fold_left (fun w op => authStep op w) ops w.

(** The session record, when there is one, is a stored user without its
    password field. *)
Definition sessionIsStoredUser (w : Window) : Prop :=
  forall u, getCurrentUser w = Some u ->
    exists su, su ∈ getStoredUsers w /\ u = delete "password" su.

Definition emptyStore : LocalStorage :=
  {| ai_chat_users := None; ai_chat_current_user := None |}.

Definition adaForm : RegisterFormData :=
  mkRegisterFormData "Ada" "ada@example.org" "0123456789" "s3cret!" "s3cret!".

Definition bobForm : RegisterFormData :=
  mkRegisterFormData "Bob" "bob@example.org" "+44 20 7946 0958" "hunter22" "hunter22".

End AuthFlowSpec.

Module FormSpec.
Import JsString Types Auth FormValidators.

(** Every character of the text passes the test. *)
Fixpoint allChars (p : ascii -> bool) (s : string) : bool :=
  match s with
  | EmptyString => true
  | String c s' => p c && allChars p s'
  end.

(** How often a character occurs in the text. *)
Fixpoint countChar (x : ascii) (s : string) : nat :=
  match s with
  | EmptyString => 0
  | String c s' => (if Ascii.eqb c x then 1 else 0) + countChar x s'
  end.

(** A stored record whose email and password would pass the
    registration form. *)
Definition wellFormedAccount (u : jsobj) : Prop :=
  exists email password,
    u !! "email" = Some email /\ isValidEmail email = true /\
    u !! "password" = Some password /\ (6 <= String.length password)%nat.

Definition freshPage (w : Window) : AuthPages.Page :=
  AuthPages.mkPage AuthPages.noErrors false UserStore.initialState w "/auth/register".

End FormSpec.

Module DragSpec.
Import UploadHandler DragHandlers.

(** The nesting depth after a run of drag events that starts at depth
    [d]; [None] when some leave comes without a matching enter. *)
Fixpoint depthAfter (es : list DragEvent) (d : nat) : option nat :=
  match es with
  | [] => Some d
  | Enter _ :: es' => depthAfter es' (S d)
  | Leave :: es' =>
      match d with
      | O => None
      | S d' => depthAfter es' d'
      end
  | Over :: es' => depthAfter es' d
  end.

Definition idle : UploadState :=
  {| isDragging := false; uploadError := None; dragCounter := 0 |}.

End DragSpec.

Module VoiceFlowSpec.
Import Types VoiceRecorder.

(** Everything that can happen to the recorder hook: a call of one of
    its functions (the two halves of [startRecording] apart) or a
    browser event. *)
Inductive HookOp : Type :=
| StartBegin
| StartSettle (media : Settled (list TrackState)) (webmSupported : bool)
| StopRec
| CancelRec
| Browser (e : BrowserEvent).

Definition hookStep (op : HookOp) (w : World) : World :=
  match op with
  | StartBegin => startRecording_begin w
  | StartSettle media ok => startRecording_settle media ok w
  | StopRec => stopRecording w
  | CancelRec => cancelRecording w
  | Browser e => fire e w
  end.

Definition hookRun (ops : list HookOp) (w : World) : World :=
  fold_left (fun w op => hookStep op w) ops w.

Definition nonEmpty (c : Chunk) : Prop := (0 < chunk_size c)%N.

(** No empty chunk in the chunk list nor in any blob handed out. *)
Definition noEmptyChunk (w : World) : Prop :=
  Forall nonEmpty (chunksRef w) /\
  Forall (fun v => forall b, v = Some b -> Forall nonEmpty (blob_parts b)) (resolved w).

(** The final chunk as the data handler keeps it. *)
Definition kept (data : Chunk) : list Chunk :=
  if (0 <? chunk_size data)%N then [data] else [].

Definition micDenied : string :=
  "Microphone access denied. Please allow microphone access to record voice messages.".

(** Two decimal digits. *)
Definition digit (d : N) : ascii := ascii_of_N (48 + d).

Definition twoDigits (n : N) : string :=
  String (digit (n / 10)) (String (digit (n mod 10)) EmptyString).

End VoiceFlowSpec.

(* ===================================================================== *)
(** * Properties *)
(* ===================================================================== *)

(** ** File validation and the upload handler *)

Section ValidatorsFacts.
Import Types Validators ValidatorsSpec.

Lemma includes_In (l : list string) (x : string) :
  includes l x = true <-> x ∈ l.
Proof.
  unfold includes. rewrite existsb_exists. split.
  - intros (y & Hy & Heq). apply String.eqb_eq in Heq. subst.
    by apply list_elem_of_In.
  - intros Hx. exists x. split; [by apply list_elem_of_In | apply String.eqb_refl].
Qed.

Lemma validateFile_cases (f : File) :
  validateFile f =
    if negb (includes allowList (file_type f)) then
      {| valid := false; error := Some typeError |}
    else if (MAX_FILE_SIZE <? file_size f)%N then
      {| valid := false; error := Some sizeError |}
    else {| valid := true; error := None |}.
Proof. reflexivity. Qed.

Lemma MAX_FILE_SIZE_bytes : MAX_FILE_SIZE = 10485760%N.
Proof. reflexivity. Qed.

Lemma validateFile_valid_iff (f : File) :
  valid (validateFile f) = true <->
  file_type f ∈ allowList /\ (file_size f <= 10485760)%N.
Proof.
  rewrite validateFile_cases, <- includes_In, <- MAX_FILE_SIZE_bytes.
  destruct (includes allowList (file_type f)); simpl.
  - destruct (N.ltb_spec MAX_FILE_SIZE (file_size f)); simpl; split;
      try (intros [_ ?]); try done; try lia. 
  - split; [done | by intros [? _]].
Qed.

Lemma validateFile_invalid_error (f : File) :
  valid (validateFile f) = false ->
  error (validateFile f) = Some typeError \/ error (validateFile f) = Some sizeError.
Proof.
  rewrite validateFile_cases.
  destruct (includes allowList (file_type f)); simpl; [| by left].
  destruct (MAX_FILE_SIZE <? file_size f)%N; simpl; [by right | done].
Qed.

Lemma handleDrop_rejected {W} (cb : File -> W -> W) f rest h (w : W) :
  valid (validateFile f) = false ->
  UploadHandler.handleDrop cb (Some (f :: rest)) h w =
    ({| UploadHandler.isDragging := false;
        UploadHandler.uploadError := error (validateFile f);
        UploadHandler.dragCounter := 0 |}, w).
Proof.
  intros Hv. unfold UploadHandler.handleDrop. rewrite Hv. simpl.
  destruct (validateFile_invalid_error f Hv) as [-> | ->]; reflexivity.
Qed.

Lemma handleFileSelect_rejected {W} (cb : File -> W -> W) f rest h (w : W) :
  valid (validateFile f) = false ->
  UploadHandler.handleFileSelect cb (Some (f :: rest)) h w =
    ({| UploadHandler.isDragging := UploadHandler.isDragging h;
        UploadHandler.uploadError := error (validateFile f);
        UploadHandler.dragCounter := UploadHandler.dragCounter h |}, w).
Proof.
  intros Hv. unfold UploadHandler.handleFileSelect. rewrite Hv.
  destruct (validateFile_invalid_error f Hv) as [-> | ->]; reflexivity.
Qed.

(** C5, as the spec words it, fails: a file above 10 MB whose type is
    outside the allow-list is rejected with the type error, not with the
    size-limit error. *)
Lemma validateFile_oversized_zip_type_error :
  (10485760 < file_size oversizedZip)%N /\
  error (validateFile oversizedZip) = Some "File type not supported" /\
  error (validateFile oversizedZip) <> Some "File size exceeds 10MB limit".
Proof. split; [reflexivity | split; [reflexivity | discriminate]]. Qed.

(** C5 (amended).  [validateFile] accepts a file exactly when its MIME
    type is in the allow-list and its size is at most 10485760 bytes; a
    file of an allowed type above 10 MB is rejected with the size-limit
    error; a file of a type outside the allow-list is rejected with the
    type error; and whenever the first offered file is rejected, drop and
    file-select show the error and never call the upload callback, so
    the state it acts on (the pending-attachment list included) is left
    as it was. *)
Theorem validateFile_accepts_and_rejections
    (f : File) (rest : list File) (h : UploadHandler.UploadState)
    (urlOf : File -> Settled string) (clk : Clock) (s : ChatStore.ChatState) :
  (valid (validateFile f) = true <->
     file_type f ∈ allowList /\ (file_size f <= 10485760)%N) /\
  (file_type f ∈ allowList -> (10485760 < file_size f)%N ->
     validateFile f = {| valid := false; error := Some sizeError |}) /\
  (file_type f ∉ allowList ->
     validateFile f = {| valid := false; error := Some typeError |}) /\
  (valid (validateFile f) = false ->
     let cb := UploadHandler.onFileUpload urlOf clk in
     let dropped := UploadHandler.handleDrop cb (Some (f :: rest)) h s in
     let selected := UploadHandler.handleFileSelect cb (Some (f :: rest)) h s in
     dropped.2 = s /\ selected.2 = s /\
     ChatStore.pendingAttachments dropped.2 = ChatStore.pendingAttachments s /\
     ChatStore.pendingAttachments selected.2 = ChatStore.pendingAttachments s /\
     UploadHandler.uploadError dropped.1 = error (validateFile f) /\
     UploadHandler.uploadError selected.1 = error (validateFile f)).
Proof.
  split; [apply validateFile_valid_iff |].
  split; [| split].
  - intros Hin Hsz. rewrite validateFile_cases.
    apply includes_In in Hin. rewrite Hin. simpl.
    rewrite <- MAX_FILE_SIZE_bytes in Hsz.
    apply N.ltb_lt in Hsz. by rewrite Hsz.
  - intros Hnin. rewrite validateFile_cases.
    destruct (includes allowList (file_type f)) eqn:E; [| done].
    apply includes_In in E. contradiction.
  - intros Hv cb dropped selected. subst dropped selected.
    rewrite (handleDrop_rejected cb f rest h s Hv).
    rewrite (handleFileSelect_rejected cb f rest h s Hv). simpl. done.
Qed.

Lemma validateFile_accepts_and_rejections_witness :
  validateFile oversizedPdf = {| valid := false; error := Some sizeError |} /\
  validateFile oversizedZip = {| valid := false; error := Some typeError |} /\
  (UploadHandler.handleDrop
     (UploadHandler.onFileUpload (fun _ => Fulfilled "blob:1") (mkClock 0 "x" "t"))
     (Some [oversizedPdf]) (UploadHandler.mkUploadState true None 1)
     ChatStore.initialState).2 = ChatStore.initialState.
Proof.
  pose proof (validateFile_accepts_and_rejections oversizedPdf []
                (UploadHandler.mkUploadState true None 1)
                (fun _ => Fulfilled "blob:1") (mkClock 0 "x" "t")
                ChatStore.initialState) as (_ & Hsize & _ & Hrej).
  pose proof (validateFile_accepts_and_rejections oversizedZip []
                (UploadHandler.mkUploadState true None 1)
                (fun _ => Fulfilled "blob:1") (mkClock 0 "x" "t")
                ChatStore.initialState) as (_ & _ & Htype & _).
  split; [| split].
  - apply Hsize; [compute_done | reflexivity].
  - apply Htype. compute_done.
  - apply Hrej. reflexivity.
Defined.

(** An accepted file is handed to the callback: the 4 KB PNG becomes the
    one pending attachment, and the earlier upload error is cleared. *)
Example drop_small_png :
  let out := UploadHandler.handleDrop
               (UploadHandler.onFileUpload (fun _ => Fulfilled "blob:1") (mkClock 7 "abc" "t"))
               (Some [smallPng]) (UploadHandler.mkUploadState true (Some typeError) 1)
               ChatStore.initialState in
  valid (validateFile smallPng) = true /\
  UploadHandler.uploadError out.1 = None /\
  List.map att_name (ChatStore.pendingAttachments out.2) = ["logo.png"].
Proof. vm_compute. done. Qed.

(** C9.  [validateFile] checks the MIME type before the size: a file
    whose type is outside the allow-list and whose size exceeds 10 MB
    gets the type error string, never the size-limit one. *)
Theorem validateFile_type_checked_first (f : File) :
  file_type f ∉ allowList ->
  (10485760 < file_size f)%N ->
  validateFile f = {| valid := false; error := Some "File type not supported" |} /\
  error (validateFile f) <> Some "File size exceeds 10MB limit".
Proof.
  intros Hnin _. rewrite validateFile_cases.
  destruct (includes allowList (file_type f)) eqn:E.
  - apply includes_In in E. contradiction.
  - simpl. split; [reflexivity | discriminate].
Qed.

Lemma validateFile_type_checked_first_witness :
  validateFile oversizedZip =
    {| valid := false; error := Some "File type not supported" |} /\
  error (validateFile oversizedZip) <> Some "File size exceeds 10MB limit".
Proof.
  apply (validateFile_type_checked_first oversizedZip).
  - compute_done.
  - reflexivity.
Defined.

End ValidatorsFacts.

(** ** Mock authentication *)

Section AuthFacts.
Import Types Auth AuthSpec.

Lemma some_true_iff {A} (p : A -> bool) (l : list A) :
  some p l = true <-> exists x, x ∈ l /\ p x = true.
Proof.
  unfold some. rewrite existsb_exists.
  split; intros (x & Hx & Hp); exists x; split; auto; by apply list_elem_of_In.
Qed.

Lemma fieldIs_true (u : jsobj) (k v : string) :
  fieldIs u k v = true <-> u !! k = Some v.
Proof.
  unfold fieldIs. split.
  - intros H. by apply bool_decide_eq_true in H.
  - intros H. by apply bool_decide_eq_true.
Qed.

Lemma emailTaken_some (users : list jsobj) (email : string) :
  some (fun u => fieldIs u "email" email) users = true <-> emailTaken users email.
Proof.
  rewrite some_true_iff. unfold emailTaken.
  split; intros (u & Hu & H); exists u; split; auto; by apply fieldIs_true.
Qed.

Lemma find_none_iff {A} (p : A -> bool) (l : list A) :
  find p l = None <-> forall x, x ∈ l -> p x = false.
Proof.
  unfold find. split.
  - intros H x Hx. apply list_elem_of_In in Hx.
    by apply (find_none p l H).
  - intros H. induction l as [| a l IH]; [done |]. simpl.
    rewrite (H a) by apply list_elem_of_here.
    apply IH. intros x Hx. apply H. by apply list_elem_of_further.
Qed.

Lemma credentials_bool (data : LoginFormData) (u : jsobj) :
  fieldIs u "email" (lf_email data) && fieldIs u "password" (lf_password data) = true
  <-> credentialsMatch data u.
Proof.
  unfold credentialsMatch. rewrite andb_true_iff, !fieldIs_true. done.
Qed.

(** The record [registerUser] builds, field by field. *)
Lemma newUser_fields (data : RegisterFormData) (clk : Clock) :
  let newUser : jsobj :=
    {[ "id" := generateUserId clk; "name" := rf_name data;
       "email" := rf_email data; "mobile" := rf_mobile data;
       "password" := rf_password data; "createdAt" := isoString clk ]} in
  newUser !! "id" = Some (generateUserId clk) /\
  newUser !! "name" = Some (rf_name data) /\
  newUser !! "email" = Some (rf_email data) /\
  newUser !! "mobile" = Some (rf_mobile data) /\
  newUser !! "password" = Some (rf_password data) /\
  newUser !! "createdAt" = Some (isoString clk).
Proof. intros newUser. subst newUser. repeat split; by simplify_map_eq. Qed.

(** C1.  On a browser with any stored user list, [registerUser] fails
    with the duplicate-email error if and only if some stored user has
    the submitted email.  It then leaves the storage as it was.
    Otherwise it appends exactly one record, which holds the submitted
    name, email, mobile and the password as submitted, and returns
    success with that record minus its password field. *)
Theorem registerUser_duplicate_or_append
    (data : RegisterFormData) (clk : Clock) (ls : LocalStorage) :
  let users := getStoredUsers (Some ls) in
  let out := registerUser data clk (Some ls) in
  (out.2 = duplicateEmail <-> emailTaken users (rf_email data)) /\
  (success out.2 = false <-> emailTaken users (rf_email data)) /\
  ((emailTaken users (rf_email data) /\ out = (Some ls, duplicateEmail))
   \/
   (~ emailTaken users (rf_email data) /\
    exists newUser : jsobj,
      getStoredUsers out.1 = (users ++ [newUser])%list /\
      getCurrentUser out.1 = getCurrentUser (Some ls) /\
      newUser !! "name" = Some (rf_name data) /\
      newUser !! "email" = Some (rf_email data) /\
      newUser !! "mobile" = Some (rf_mobile data) /\
      newUser !! "password" = Some (rf_password data) /\
      out.2 = {| success := true; user := Some (delete "password" newUser);
                 error := None |} /\
      delete "password" newUser !! "password" = None /\
      delete "password" newUser !! "name" = Some (rf_name data) /\
      delete "password" newUser !! "email" = Some (rf_email data) /\
      delete "password" newUser !! "mobile" = Some (rf_mobile data))).
Proof.
  intros users out. subst users out. unfold registerUser.
  destruct (some _ (getStoredUsers (Some ls))) eqn:E.
  - apply emailTaken_some in E. simpl.
    split; [done |]. split; [done |]. left. done.
  - assert (Hno : ~ emailTaken (getStoredUsers (Some ls)) (rf_email data)).
    { intros H. apply emailTaken_some in H. congruence. }
    split; [| split].
    + split; [discriminate | done].
    + split; [discriminate | done].
    + right. split; [done |].
      destruct (newUser_fields data clk) as (_ & Hn & He & Hm & Hp & _).
      eexists. split; [reflexivity |]. split; [reflexivity |].
      repeat (split; [ first [ eassumption | reflexivity | by simplify_map_eq ] |]).
      by simplify_map_eq.
Qed.

(** [find] returns the first element that passes the test. *)
Lemma find_first {A} (p : A -> bool) (l : list A) (x : A) :
  find p l = Some x ->
  exists before after,
    l = (before ++ x :: after)%list /\ p x = true /\
    forall y, y ∈ before -> p y = false.
Proof.
  unfold find. induction l as [| a l IH]; [done |]. simpl.
  destruct (p a) eqn:Ea.
  - intros [= <-]. exists [], l. split; [done |]. split; [done |].
    intros y Hy. by apply elem_of_nil in Hy.
  - intros H. destruct (IH H) as (before & after & -> & Hx & Hb).
    exists (a :: before), after. split; [done |]. split; [done |].
    intros y Hy. apply elem_of_cons in Hy as [-> | Hy]; [done | by apply Hb].
Qed.

(** C2.  Let the browser storage hold any user list (or none, which
    reads as the empty list) under the users key and anything under the
    current-session key.  [loginUser] fails with the invalid-credentials
    error if and only if no record of that list matches both the
    submitted email and password, and it then leaves the storage, the
    current-session record included, as it was.  On a match it takes the
    first matching record of the list, writes it minus its password
    field under the current-session key, leaves the users key as it was,
    and returns that same object. *)
Theorem loginUser_invalid_or_session
    (data : LoginFormData) (stored : option (list jsobj)) (session : option jsobj) :
  let ls := {| ai_chat_users := stored; ai_chat_current_user := session |} in
  let users := default [] stored in
  let out := loginUser data (Some ls) in
  (out.2 = invalidCredentials <-> ~ exists u, u ∈ users /\ credentialsMatch data u) /\
  (success out.2 = false <-> ~ exists u, u ∈ users /\ credentialsMatch data u) /\
  (((~ exists u, u ∈ users /\ credentialsMatch data u) /\
    out = (Some ls, invalidCredentials))
   \/
   (exists (u : jsobj) (before after : list jsobj),
      users = (before ++ u :: after)%list /\
      credentialsMatch data u /\
      (forall v, v ∈ before -> ~ credentialsMatch data v) /\
      out = (Some {| ai_chat_users := stored;
                     ai_chat_current_user := Some (delete "password" u) |},
             {| success := true; user := Some (delete "password" u);
                error := None |}) /\
      delete "password" u !! "password" = None /\
      delete "password" u !! "email" = Some (lf_email data))).
Proof.
  intros ls users out.
  assert (Hus : getStoredUsers (Some ls) = users) by (by destruct stored).
  subst out. unfold loginUser. rewrite Hus.
  destruct (find _ users) as [u |] eqn:E.
  - destruct (find_first _ _ _ E) as (before & after & Hsplit & Hm & Hfirst).
    apply credentials_bool in Hm.
    assert (Hex : exists u, u ∈ users /\ credentialsMatch data u).
    { exists u. split; [| done]. rewrite Hsplit.
      apply elem_of_app. right. apply list_elem_of_here. }
    split; [| split].
    + split; [discriminate | done].
    + split; [discriminate | done].
    + right. exists u, before, after. destruct Hm as [He Hp].
      split; [done |]. split; [done |]. split.
      * intros v Hv Hc. apply credentials_bool in Hc.
        rewrite (Hfirst v Hv) in Hc. discriminate.
      * split; [reflexivity |]. split; by simplify_map_eq.
  - assert (Hno : ~ exists u, u ∈ users /\ credentialsMatch data u).
    { intros (u & Hu & Hm). apply credentials_bool in Hm.
      rewrite find_none_iff in E. rewrite (E u Hu) in Hm. discriminate. }
    split; [done |]. split; [done |]. left. done.
Qed.

(** Registering the same email twice: the second attempt fails. *)
Example register_twice :
  let d := mkRegisterFormData "Ada" "ada@example.org" "0123456789" "s3cret!" "s3cret!" in
  let first := registerUser d (mkClock 1 "abc" "t1") (Some (mkLocalStorage None None)) in
  let second := registerUser d (mkClock 2 "def" "t2") first.1 in
  success first.2 = true /\ second.2 = duplicateEmail /\ second.1 = first.1.
Proof. vm_compute. done. Qed.

(** Login with a wrong password fails; with the right one it returns the
    stored user without the password. *)
Example login_wrong_then_right :
  (loginUser (mkLoginFormData "ada@example.org" "nope") (Some adaStore)).2
    = invalidCredentials /\
  (loginUser (mkLoginFormData "ada@example.org" "s3cret!") (Some adaStore)).2
    = {| success := true; user := Some (delete "password" ada); error := None |}.
Proof. split; reflexivity. Qed.

End AuthFacts.

(** ** The chat store *)

Section ChatStoreFacts.
Import JsString Types ChatStore ChatSpec.

(** The two halves of [sendMessage], field by field. *)
Lemma sendMessage_begin_messages content attachments clk s :
  exists userMessage,
    messages (sendMessage_begin content attachments clk s).1
      = (messages s ++ [userMessage])%list /\
    msg_role userMessage = user /\
    msg_content userMessage = Some content /\
    msg_id userMessage = generateMessageId clk /\
    msg_timestamp userMessage = isoString clk.
Proof. eexists. simpl. repeat split. Qed.

Lemma sendMessage_settle_fulfilled k response clk clk' s :
  let aiMessage :=
    mkMessage (generateMessageId clk) assistant (rs_content response)
      (rs_type response) (rs_attachments response) (isoString clk) None in
  messages (sendMessage_settle k (Fulfilled response) clk clk' s)
    = (messages s ++ [aiMessage])%list /\
  isTyping (sendMessage_settle k (Fulfilled response) clk clk' s) = false /\
  inputText (sendMessage_settle k (Fulfilled response) clk clk' s) = inputText s /\
  pendingAttachments (sendMessage_settle k (Fulfilled response) clk clk' s)
    = pendingAttachments s.
Proof.
  unfold sendMessage_settle.
  destruct (truthyOpt (rs_error response)); simpl; repeat split.
Qed.

Lemma step_prefix (a : Action) (s : ChatState) :
  replacesMessages a = false -> messages s `prefix_of` messages (step a s).
Proof.
  destruct a; simpl; try discriminate; intros _;
    try (by apply prefix_app_r); try done.
  - unfold sendMessage_settle. destruct outcome as [response |]; [| done].
    destruct (truthyOpt (rs_error response)); simpl; by apply prefix_app_r.
  - destruct upload; simpl; done.
Qed.

Lemma step_replaces (a : Action) (s : ChatState) :
  replacesMessages a = true -> messages (step a s) = [].
Proof. destruct a; simpl; try discriminate; done. Qed.

Lemma run_snoc acts a s : run (acts ++ [a])%list s = step a (run acts s).
Proof. unfold run. by rewrite fold_left_app. Qed.

Lemma run_prefix (acts : list Action) (s : ChatState) :
  forallb (fun a => negb (replacesMessages a)) acts = true ->
  messages s `prefix_of` messages (run acts s).
Proof.
  induction acts as [| a acts IH] using rev_ind; intros H; [done |].
  rewrite forallb_app in H. apply andb_true_iff in H as [H1 H2].
  simpl in H2. rewrite andb_true_r in H2. apply negb_true_iff in H2.
  rewrite run_snoc. etrans; [by apply IH | by apply step_prefix].
Qed.

Lemma forallb_take {A} (p : A -> bool) (l : list A) n :
  forallb p l = true -> forallb p (take n l) = true.
Proof.
  revert n. induction l as [| x l IH]; intros [| n] H; simpl in *; try done.
  apply andb_true_iff in H as [-> H]. by apply IH.
Qed.

(** C7.  The message list is append-only.  Every store action other than
    [clearMessages] and [newConversation] leaves the list it found as a
    prefix of the list it leaves, so each message already there keeps
    its position and all its fields (id, role, content, timestamp);
    those two actions leave the empty list.  No action removes or
    rewrites a single message. *)
Theorem messages_append_only (a : Action) (s : ChatState) :
  (replacesMessages a = false ->
     messages s `prefix_of` messages (step a s) /\
     forall i m, messages s !! i = Some m -> messages (step a s) !! i = Some m) /\
  (replacesMessages a = true -> messages (step a s) = []) /\
  (replacesMessages a = true <->
     a = ClearMessages \/ exists clk, a = NewConversation clk).
Proof.
  split; [| split].
  - intros H. pose proof (step_prefix a s H) as Hp. split; [done |].
    intros i m Hi. destruct Hp as [k ->]. by apply lookup_app_l_Some.
  - apply step_replaces.
  - split.
    + destruct a; simpl; try discriminate; eauto.
    + intros [-> | [clk ->]]; reflexivity.
Qed.

Lemma messages_append_only_witness :
  let m := mkMessage "msg_0" user (Some "hi") text None "t0" None in
  let s := addMessage m initialState in
  messages s `prefix_of` messages (step (SendMessageBegin "hello" [] clockA) s) /\
  messages (step (SendMessageBegin "hello" [] clockA) s) !! 0%nat = Some m /\
  messages (step ClearMessages s) = [].
Proof.
  intros m s.
  destruct (messages_append_only (SendMessageBegin "hello" [] clockA) s)
    as (Hkeep & _ & _).
  destruct (messages_append_only ClearMessages s) as (_ & Hclear & _).
  destruct (Hkeep eq_refl) as [Hp Hl].
  split; [exact Hp |]. split; [apply Hl; reflexivity | apply Hclear; reflexivity].
Defined.

Lemma step_keeps_typing (a : Action) (s : ChatState) :
  isSettle a = false -> isTyping s = true -> isTyping (step a s) = true.
Proof. destruct a; simpl; try discriminate; try done. by destruct upload. Qed.

Lemma run_keeps_typing (acts : list Action) (s : ChatState) :
  forallb (fun a => negb (isSettle a)) acts = true ->
  isTyping s = true -> isTyping (run acts s) = true.
Proof.
  induction acts as [| a acts IH] using rev_ind; intros H Hs; [done |].
  rewrite forallb_app in H. apply andb_true_iff in H as [H1 H2].
  simpl in H2. rewrite andb_true_r in H2. apply negb_true_iff in H2.
  rewrite run_snoc. apply step_keeps_typing; [done | by apply IH].
Qed.

(** C3, as the spec words it, fails on its last clause: the typing flag
    is one flag for the whole store, and the completion of any send
    lowers it.  The first suggestion button of the empty chat is
    pressed; while its call is pending the list is cleared, the empty
    chat shows again and the second suggestion button is pressed; then
    the first call completes.  The second send has appended its user
    message and not yet its assistant message, and the flag is false. *)
Lemma sendMessage_overlap_lowers_typing :
  let rnd := Double.mkDouble 1 (-1) in
  let beginA := sendMessage_begin "Hello! What can you help me with?" [] clockA
                  initialState in
  let cleared := clearMessages beginA.1 in
  let beginB := sendMessage_begin "Help me write some code" [] clockC cleared in
  let responseA := AiAgent.sendToAIAgent (sf_payload beginA.2) rnd in
  let responseB := AiAgent.sendToAIAgent (sf_payload beginB.2) rnd in
  let between := sendMessage_settle beginA.2 (Fulfilled responseA) clockB clockB
                   beginB.1 in
  let after := sendMessage_settle beginB.2 (Fulfilled responseB) clockD clockD
                 between in
  rolesAndTexts (messages beginB.1) = [(user, Some "Help me write some code")] /\
  isTyping beginB.1 = true /\
  rolesAndTexts (messages between)
    = [(user, Some "Help me write some code");
       (assistant, rs_content responseA)] /\
  isTyping between = false /\
  rolesAndTexts (messages after)
    = [(user, Some "Help me write some code");
       (assistant, rs_content responseA);
       (assistant, rs_content responseB)] /\
  isTyping after = false.
Proof. vm_compute. done. Qed.

(** C3 (amended).  A [sendMessage] whose agent call is fulfilled: on
    entry it appends exactly one user message carrying the text and
    raises the typing flag; while the call is pending the flag stays
    raised, whatever other actions the store runs in between, as long as
    none of them is the completion of another send; on completion it
    appends exactly one assistant message carrying the response and
    lowers the flag.  Unless one of the actions in between replaces the
    list wholesale, the prior list followed by the user message is still
    a prefix of the final list; run without interruption, the final list
    is the prior list followed by the two new messages.  So nothing of
    the prior list is touched. *)
Theorem sendMessage_fulfilled
    (content : string) (attachments : list Attachment) (clk0 clk1 clk2 : Clock)
    (response : AIAgentResponse) (others : list Action) (s : ChatState) :
  forallb (fun a => negb (isSettle a)) others = true ->
  let s1 := (sendMessage_begin content attachments clk0 s).1 in
  let k := (sendMessage_begin content attachments clk0 s).2 in
  let s2 := sendMessage_settle k (Fulfilled response) clk1 clk2 (run others s1) in
  exists userMessage aiMessage,
    msg_role userMessage = user /\
    msg_content userMessage = Some content /\
    msg_role aiMessage = assistant /\
    msg_content aiMessage = rs_content response /\
    messages s1 = (messages s ++ [userMessage])%list /\
    isTyping s1 = true /\
    (forall n, isTyping (run (take n others) s1) = true) /\
    messages s2 = (messages (run others s1) ++ [aiMessage])%list /\
    isTyping s2 = false /\
    (forallb (fun a => negb (replacesMessages a)) others = true ->
       (messages s ++ [userMessage])%list `prefix_of` messages s2) /\
    messages (sendMessage_settle k (Fulfilled response) clk1 clk2 s1)
      = (messages s ++ [userMessage; aiMessage])%list.
Proof.
  intros Hb s1 k s2.
  destruct (sendMessage_begin_messages content attachments clk0 s)
    as (um & Hm1 & Hr1 & Hc1 & _).
  fold s1 in Hm1.
  destruct (sendMessage_settle_fulfilled k response clk1 clk2 (run others s1))
    as (Hm2 & Ht2 & _).
  fold s2 in Hm2, Ht2.
  destruct (sendMessage_settle_fulfilled k response clk1 clk2 s1) as (Hm3 & _).
  set (am := mkMessage (generateMessageId clk1) assistant (rs_content response)
               (rs_type response) (rs_attachments response) (isoString clk1) None)
    in *.
  exists um, am.
  repeat (split; [done |]).
  split; [| split; [| split; [| split]]]; try done.
  - intros n. apply run_keeps_typing; [by apply forallb_take | done].
  - intros Hkeep. rewrite Hm2, <- Hm1.
    apply prefix_app_r. by apply run_prefix.
  - rewrite Hm3, Hm1, <- app_assoc. done.
Qed.

Lemma sendMessage_fulfilled_witness :
  let response := AiAgent.sendToAIAgent
                    (sendMessage_begin "hello" [] clockA initialState).2.(sf_payload)
                    (Double.mkDouble 0 0) in
  let others := [SetInputText "x"; AddAttachment photo;
                 SendMessageBegin "again" [] clockC] in
  let s1 := (sendMessage_begin "hello" [] clockA initialState).1 in
  let k := (sendMessage_begin "hello" [] clockA initialState).2 in
  let s2 := sendMessage_settle k (Fulfilled response) clockB clockB (run others s1) in
  exists userMessage aiMessage,
    msg_role userMessage = user /\
    msg_content userMessage = Some "hello" /\
    msg_role aiMessage = assistant /\
    msg_content aiMessage = rs_content response /\
    messages s1 = [userMessage] /\
    isTyping s1 = true /\
    (forall n, isTyping (run (take n others) s1) = true) /\
    messages s2 = (messages (run others s1) ++ [aiMessage])%list /\
    isTyping s2 = false /\
    (forallb (fun a => negb (replacesMessages a)) others = true ->
       [userMessage] `prefix_of` messages s2) /\
    messages (sendMessage_settle k (Fulfilled response) clockB clockB s1)
      = [userMessage; aiMessage].
Proof.
  intros response others s1 k s2.
  exact (sendMessage_fulfilled "hello" [] clockA clockB clockB response
           others initialState eq_refl).
Defined.

(** Sending "hello" to the mock agent from the initial state. *)
Example send_hello :
  let s := sendMessage_run "hello" [] clockA (Double.mkDouble 0 0) clockB clockB
             initialState in
  map (fun m => (msg_role m, msg_content m)) (messages s)
    = [ (user, Some "hello");
        (assistant, Some "Hello! I'm your AI assistant. How can I help you today?") ]
  /\ isTyping s = false
  /\ isTyping (sendMessage_begin "hello" [] clockA initialState).1 = true.
Proof. vm_compute. done. Qed.

(** C4.  When the agent call inside [sendMessage] is rejected, the
    [catch] block lowers the typing flag and stores the generic failure
    string; it leaves the message list as it finds it, so the user
    message appended on entry stays (no rollback) and no assistant
    message is added. *)
Theorem sendMessage_rejected
    (content : string) (attachments : list Attachment) (clk0 clk1 clk2 : Clock)
    (s : ChatState) :
  let s1 := (sendMessage_begin content attachments clk0 s).1 in
  let k := (sendMessage_begin content attachments clk0 s).2 in
  let s2 := sendMessage_settle k Rejected clk1 clk2 s1 in
  isTyping s2 = false /\
  error s2 = Some "Failed to send message. Please try again." /\
  messages s2 = messages s1 /\
  (exists userMessage,
     messages s2 = (messages s ++ [userMessage])%list /\
     msg_role userMessage = user /\ msg_content userMessage = Some content) /\
  (forall i m, messages s2 !! i = Some m ->
     msg_role m = assistant -> messages s !! i = Some m) /\
  (forall mid : ChatState,
     let s3 := sendMessage_settle k Rejected clk1 clk2 mid in
     messages s3 = messages mid /\ isTyping s3 = false /\
     error s3 = Some sendFailure /\
     conversationId s3 = conversationId mid /\
     inputText s3 = inputText mid /\
     pendingAttachments s3 = pendingAttachments mid).
Proof.
  intros s1 k s2. subst s1 k s2. simpl.
  repeat (split; [done |]). split; [| split].
  - eexists. repeat split.
  - intros i m Hi Hr.
    apply lookup_app_Some in Hi as [Hi | [_ Hi]]; [done |].
    apply list_lookup_singleton_Some in Hi as [_ <-]. discriminate.
  - intros mid. simpl. done.
Qed.

Lemma trimStart_whitespaceOnly (s : string) :
  whitespaceOnly s = true -> trimStart s = "".
Proof.
  induction s as [| c s IH]; simpl; [done |].
  intros H. apply andb_true_iff in H as [-> H]. by apply IH.
Qed.

Lemma trim_whitespaceOnly (s : string) : whitespaceOnly s = true -> trim s = "".
Proof. intros H. unfold trim. by rewrite trimStart_whitespaceOnly. Qed.

(** C10.  The hook's [sendMessage], called with a text that is empty or
    white space only while the rendered pending-attachment list is
    empty, returns at once: the store is left exactly as it was (no
    message, typing flag, input text, pending attachments and error
    untouched) and no agent call is left in flight, so no assistant
    message follows either. *)
Theorem hook_sendMessage_blank_noop
    (rendered : ChatState) (content : string) (clk : Clock) (s : ChatState) :
  whitespaceOnly content = true ->
  pendingAttachments rendered = [] ->
  UseChat.sendMessage rendered content clk s = (s, None).
Proof.
  intros Hws Hpa. unfold UseChat.sendMessage.
  rewrite trim_whitespaceOnly, Hpa by done. reflexivity.
Qed.

Lemma hook_sendMessage_blank_noop_witness :
  let s := addMessage (mkMessage "msg_0" user (Some "hi") text None "t0" None)
             initialState in
  UseChat.sendMessage s ("  " +:+ nl) clockA s = (s, None).
Proof.
  intros s.
  apply (hook_sendMessage_blank_noop s ("  " +:+ nl) clockA s); reflexivity.
Defined.

End ChatStoreFacts.

(** ** The voice recorder *)

Section VoiceRecorderFacts.
Import Types VoiceRecorder VoiceSpec.

Lemma recordingInProgress_fresh : recordingInProgress freshRecording.
Proof. split; [reflexivity |]. exists 0%nat, 0%nat, 0%nat, [live]. by repeat split. Qed.

Lemma recordingInProgress_chunks : recordingInProgress recordingWithChunks.
Proof. split; [reflexivity |]. exists 0%nat, 0%nat, 0%nat, [live]. by repeat split. Qed.

(** [cancelRecording] on a recording in progress, written out. *)
Lemma cancelRecording_inProgress (w : World) r st t tracks :
  isRecording w = true ->
  mediaRecorderRef w = Some r ->
  streamRef w = Some st ->
  timerRef w = Some t ->
  recorders w !! r =
    Some {| state := recording; ondataavailable := true;
            onstop := false; stopQueued := false |} ->
  streams w !! st = Some tracks ->
  cancelRecording w =
    {| isRecording := false; recordingDuration := 0;
       recordingError := recordingError w;
       mediaRecorderRef := None; chunksRef := []; timerRef := None;
       streamRef := None;
       recorders :=
         <[r := {| state := inactive; ondataavailable := true;
                   onstop := false; stopQueued := true |}]> (recorders w);
       streams := <[st := List.map (fun _ => ended) tracks]> (streams w);
       intervals := <[t := false]> (intervals w);
       resolved := resolved w |}.
Proof.
  intros _ Hr Hst Ht Hrec Htr. unfold cancelRecording.
  rewrite Ht. simpl. rewrite Hr, Hrec. simpl.
  unfold recorderStop. simpl. rewrite Hrec. simpl. rewrite Hst.
  unfold stopTracks. simpl. rewrite Htr. reflexivity.
Qed.

(** C8 does not hold of the code.  [cancelRecording] empties the chunk
    list, but [stop()] queues a final [dataavailable] event and the data
    handler stays on the recorder: on a recording in progress that has
    gathered two chunks, the cancel leaves the list empty, the queued
    task is then enabled, and when the browser runs it with 96 bytes of
    data that chunk is appended to the list, after the cancel. *)
Theorem cancelRecording_final_chunk_appended :
  recordingInProgress recordingWithChunks /\
  chunksRef recordingWithChunks = [mkChunk 320; mkChunk 288] /\
  chunksRef (cancelRecording recordingWithChunks) = [] /\
  enabled (StopTask 0 (mkChunk 96)) (cancelRecording recordingWithChunks) = true /\
  chunksRef (fire (StopTask 0 (mkChunk 96)) (cancelRecording recordingWithChunks))
    = [mkChunk 96].
Proof. split; [apply recordingInProgress_chunks |]. by repeat split. Qed.

(** The clause on the capture device fails too when the record button
    was pressed twice: [cancelRecording] reaches the second recorder,
    stream and timer only.  The first stream keeps its live track, the
    first recorder goes on delivering chunks into the emptied list, and
    the first timer goes on counting. *)
Lemma cancelRecording_after_double_start :
  let w' := cancelRecording startedTwice in
  recordingInProgress startedTwice /\
  isRecording w' = false /\ chunksRef w' = [] /\ recordingDuration w' = 0%Z /\
  streams w' = [[live]; [ended]] /\
  enabled (TimeSlice 0 (mkChunk 64)) w' = true /\
  chunksRef (fire (TimeSlice 0 (mkChunk 64)) w') = [mkChunk 64] /\
  enabled (Tick 0) w' = true /\
  recordingDuration (fire (Tick 0) w') = 1%Z.
Proof.
  intros w'. split.
  - split; [reflexivity |]. exists 1%nat, 1%nat, 1%nat, [live]. by repeat split.
  - by repeat split.
Qed.

(** What [cancelRecording] does achieve on a recording in progress, for
    the recorder, stream and timer the hook's references point to: the
    chunk list is empty, the recording flag is false, the duration
    counter is zero; the three references are cleared; every track of
    that stream is stopped, that timer is cancelled and that recorder is
    inactive, so no time-slice event fires on it any more.  No blob is
    made of the discarded chunks: the cancel resolves nothing, a
    [stopRecording] called next resolves to [null], and the recorder has
    no stop handler, so the task queued by [stop()] resolves nothing
    either. *)
Lemma cancelRecording_releases (w : World) (r st t : nat) :
  recordingInProgress w ->
  mediaRecorderRef w = Some r ->
  streamRef w = Some st ->
  timerRef w = Some t ->
  let w' := cancelRecording w in
  chunksRef w' = [] /\
  isRecording w' = false /\
  recordingDuration w' = 0%Z /\
  mediaRecorderRef w' = None /\
  streamRef w' = None /\
  timerRef w' = None /\
  (exists tracks, streams w' !! st = Some tracks /\ Forall (fun tr => tr = ended) tracks) /\
  intervals w' !! t = Some false /\
  (exists rec, recorders w' !! r = Some rec /\
               state rec = inactive /\ onstop rec = false) /\
  (forall data, enabled (TimeSlice r data) w' = false) /\
  resolved w' = resolved w /\
  stopRecording w' = resolve None w' /\
  (forall data,
     resolved (fire (StopTask r data) w') = resolved w /\
     forall data', enabled (StopTask r data') (fire (StopTask r data) w') = false).
Proof.
  intros [Hrec (r0 & st0 & t0 & tracks & Hr & Hst & Ht & Hrc & Htr & Hiv)] Er Est Et w'.
  rewrite Er in Hr. rewrite Est in Hst. rewrite Et in Ht. simplify_eq.
  subst w'. rewrite (cancelRecording_inProgress w r0 st0 t0 tracks) by done.
  assert (Hlr : (r0 < length (recorders w))%nat) by (by eapply lookup_lt_Some).
  assert (Hls : (st0 < length (streams w))%nat) by (by eapply lookup_lt_Some).
  assert (Hlt : (t0 < length (intervals w))%nat) by (by eapply lookup_lt_Some).
  simpl. repeat (split; [reflexivity |]).
  split; [| split; [| split; [| split; [| split; [| split]]]]].
  - eexists. split; [by apply list_lookup_insert_eq |].
    apply Forall_forall. intros x Hx. apply list_elem_of_In in Hx.
    apply in_map_iff in Hx as (? & <- & _). done.
  - by apply list_lookup_insert_eq.
  - eexists. split; [by apply list_lookup_insert_eq | done].
  - intros data. rewrite list_lookup_insert_eq by done. reflexivity.
  - reflexivity.
  - reflexivity.
  - intros data. unfold fire. simpl. rewrite list_lookup_insert_eq by done. simpl.
    unfold onDataAvailable.
    split; [destruct (0 <? chunk_size data)%N; reflexivity |].
    intros data'. destruct (0 <? chunk_size data)%N; simpl;
      rewrite list_lookup_insert_eq; try done;
      by rewrite length_insert.
Qed.

Lemma cancelRecording_releases_witness :
  let w' := cancelRecording recordingWithChunks in
  chunksRef w' = [] /\ isRecording w' = false /\ recordingDuration w' = 0%Z /\
  mediaRecorderRef w' = None /\ streamRef w' = None /\ timerRef w' = None.
Proof.
  intros w'.
  destruct (cancelRecording_releases recordingWithChunks 0 0 0
              recordingInProgress_chunks eq_refl eq_refl eq_refl)
    as (H1 & H2 & H3 & H4 & H5 & H6 & _).
  repeat split; assumption.
Defined.

End VoiceRecorderFacts.

(** ** Regular expressions: the matcher decides the language *)

Section StringFacts.

Lemma append_nil_l (s : string) : "" +:+ s = s.
Proof. reflexivity. Qed.

Lemma append_cons (c : ascii) (u v : string) :
  String c u +:+ v = String c (u +:+ v).
Proof. reflexivity. Qed.

Lemma append_nil_r (s : string) : s +:+ "" = s.
Proof. induction s as [| c s IH]; [done |]. by rewrite append_cons, IH. Qed.

Lemma append_assoc (u v w : string) : (u +:+ v) +:+ w = u +:+ (v +:+ w).
Proof. induction u as [| c u IH]; [done |]. by rewrite !append_cons, IH. Qed.

Lemma append_eq_nil (u v : string) : u +:+ v = "" -> u = "" /\ v = "".
Proof. destruct u; [done |]. rewrite append_cons. discriminate. Qed.

(** How a split can produce a non-empty string. *)
Lemma append_eq_cons (u v : string) (c : ascii) (s : string) :
  u +:+ v = String c s ->
  (u = "" /\ v = String c s) \/ (exists u', u = String c u' /\ s = u' +:+ v).
Proof.
  destruct u as [| a u]; [by left |].
  rewrite append_cons. intros [= -> <-]. right. by eexists.
Qed.

End StringFacts.

Section RegexFacts.
Import JsString Regex.

Lemma matches_Void w : matches Void w <-> False.
Proof. split; [inversion 1 | done]. Qed.

Lemma matches_Eps w : matches Eps w <-> w = "".
Proof. split; [by inversion 1 | intros ->; constructor]. Qed.

Lemma matches_Cls p w : matches (Cls p) w <-> exists c, w = String c "" /\ p c = true.
Proof.
  split.
  - inversion 1; subst. by eexists.
  - intros (c & -> & Hp). by constructor.
Qed.

Lemma matches_Cat a b w :
  matches (Cat a b) w <-> exists u v, w = u +:+ v /\ matches a u /\ matches b v.
Proof.
  split.
  - inversion 1; subst. by eexists _, _.
  - intros (u & v & -> & Ha & Hb). by constructor.
Qed.

Lemma matches_Alt a b w : matches (Alt a b) w <-> matches a w \/ matches b w.
Proof.
  split.
  - inversion 1; subst; auto.
  - intros [H | H]; [by apply m_alt_l | by apply m_alt_r].
Qed.


Lemma nullable_matches r : nullable r = true <-> matches r "".
Proof.
  split.
  - induction r; simpl; intros H; try discriminate.
    + constructor.
    + apply andb_true_iff in H as [H1 H2].
      change "" with ("" +:+ ""). constructor; auto.
    + apply orb_true_iff in H as [H | H]; [apply m_alt_l | apply m_alt_r]; auto.
    + constructor.
  - intros H. remember "" as w eqn:Hw. induction H; simpl; subst; try done.
    + apply append_eq_nil in Hw as [-> ->]. rewrite IHmatches1, IHmatches2; done.
    + rewrite IHmatches; done.
    + rewrite IHmatches by done. apply orb_true_r.
Qed.

Lemma deriv_sound c r u : matches (deriv c r) u -> matches r (String c u).
Proof.
  revert u. induction r as [| | p | a IHa b IHb | a IHa b IHb | a IHa]; simpl; intros u H.
  - by apply matches_Void in H.
  - by apply matches_Void in H.
  - destruct (p c) eqn:E; [| by apply matches_Void in H].
    apply matches_Eps in H as ->. by constructor.
  - destruct (nullable a) eqn:E.
    + apply matches_Alt in H as [H | H].
      * apply matches_Cat in H as (x & y & -> & Hx & Hy).
        rewrite <- append_cons. constructor; auto.
      * rewrite <- (append_nil_l (String c u)). constructor; auto.
        by apply nullable_matches.
    + apply matches_Cat in H as (x & y & -> & Hx & Hy).
      rewrite <- append_cons. constructor; auto.
  - apply matches_Alt in H as [H | H]; [apply m_alt_l | apply m_alt_r]; auto.
  - apply matches_Cat in H as (x & y & -> & Hx & Hy).
    rewrite <- append_cons. apply m_star_cons; auto.
Qed.

Lemma deriv_complete c r w :
  matches r w -> forall u, w = String c u -> matches (deriv c r) u.
Proof.
  induction 1 as [| p c' Hp | a b x y Ha IHa Hb IHb | a b x Ha IHa | a b x Hb IHb
                  | a | a x y Ha IHa Hs IHs]; intros u Hw; simpl.
  - discriminate.
  - injection Hw as -> <-. rewrite Hp. constructor.
  - apply append_eq_cons in Hw as [[-> ->] | (x' & -> & ->)].
    + apply nullable_matches in Ha. rewrite Ha. apply m_alt_r. by apply IHb.
    + destruct (nullable a); [apply m_alt_l |]; constructor; auto.
  - apply m_alt_l. by apply IHa.
  - apply m_alt_r. by apply IHb.
  - discriminate.
  - apply append_eq_cons in Hw as [[-> ->] | (x' & -> & ->)].
    + by apply IHs.
    + constructor; auto.
Qed.

Lemma deriv_matches c r u : matches (deriv c r) u <-> matches r (String c u).
Proof. split; [apply deriv_sound | intros H; by eapply deriv_complete]. Qed.



End RegexFacts.

(** ** The canned-response selector *)

Section AgentFacts.
Import JsString Regex Types AiAgent AgentSpec.



















End AgentFacts.

(** ** The double product behind the random index *)

Section DoubleFacts.
Import Double.
Local Open Scope Z_scope.

(** Rounding [a / 2^s] never goes below the quotient, and moves [a] by
    at most half a unit of the last place kept. *)
Lemma roundShift_bounds (a s : Z) :
  0 <= a -> 0 < s ->
  a / 2 ^ s <= roundShift a s /\ roundShift a s * 2 ^ s <= a + 2 ^ (s - 1).
Proof.
  intros Ha Hs. unfold roundShift.
  assert (Hp : 2 ^ s = 2 * 2 ^ (s - 1)).
  { rewrite <- Z.pow_succ_r by lia. f_equal. lia. }
  assert (Hh : 0 < 2 ^ (s - 1)) by (apply Z.pow_pos_nonneg; lia).
  pose proof (Z.div_mod a (2 ^ s) ltac:(lia)) as Hdm.
  pose proof (Z.mod_pos_bound a (2 ^ s) ltac:(lia)) as Hr.
  set (q := a / 2 ^ s) in *. set (r := a mod 2 ^ s) in *.
  set (h := 2 ^ (s - 1)) in *.
  destruct (Z.ltb_spec r h); [nia |].
  destruct (Z.ltb_spec h r); [nia |].
  destruct (Z.even q); nia.
Qed.

Lemma Qfrac_eq (a b : Z) : 0 < b -> (inject_Z a / inject_Z b == a # Z.to_pos b)%Q.
Proof.
  intros Hb. destruct b as [| p | p]; try lia.
  unfold Qeq, Qdiv, Qmult, Qinv, inject_Z. simpl. lia.
Qed.

(** A double below 1 is zero or has a negative exponent [-E] and a
    significand below [2^E]. *)
Lemma value_unit (d : double) :
  finite d -> (value d < 1)%Q ->
  (mant d = 0 /\ (value d == 0)%Q) \/
  (0 < mant d /\ expo d < 0 /\ mant d < 2 ^ (- expo d) /\
   (value d == inject_Z (mant d) / inject_Z (2 ^ (- expo d)))%Q).
Proof.
  intros [[Hm0 Hm1] He] Hv. unfold value in *.
  destruct (Z.eq_dec (mant d) 0) as [E | Hne].
  { left. split; [done |]. rewrite E. apply Qmult_0_l. }
  right. split; [lia |].
  destruct (Z.ltb_spec (expo d) 0) as [Hneg | Hpos].
  - assert (Hpow : (Qpower 2 (expo d) == / inject_Z (2 ^ (- expo d)))%Q).
    { rewrite Zpower_Qpower by lia. rewrite <- Qpower_opp.
      rewrite Z.opp_involutive. reflexivity. }
    assert (HB : 0 < 2 ^ (- expo d)) by (apply Z.pow_pos_nonneg; lia).
    split; [done |]. split.
    + rewrite Hpow in Hv.
      change (inject_Z (mant d) / inject_Z (2 ^ (- expo d)) < 1)%Q in Hv.
      rewrite (Qfrac_eq _ _ HB) in Hv.
      destruct (2 ^ (- expo d)) as [| p | p]; try lia.
      unfold Qlt in Hv. simpl in Hv. lia.
    + by rewrite Hpow.
  - exfalso. change 2%Q with (inject_Z 2) in Hv.
    rewrite <- Zpower_Qpower in Hv by lia.
    rewrite <- inject_Z_mult in Hv. change 1%Q with (inject_Z 1) in Hv.
    rewrite <- Zlt_Qlt in Hv.
    assert (0 < 2 ^ expo d) by (apply Z.pow_pos_nonneg; lia). nia.
Qed.


(** The floor of the double product [m * 2^-E * n], against the exact
    product [m * n / 2^E]: it is at least every integer the exact
    product reaches, and exceeds the exact product by less than
    [n * 2^-53]. *)
Lemma mul_floor_core (m E n : Z) :
  0 < m < 2 ^ 53 -> 0 < E <= 1074 -> m < 2 ^ E -> 0 < n < 2 ^ 53 ->
  let idx := floor (mul (mkDouble m (- E)) (ofZ n)) in
  (forall K, K * 2 ^ E <= m * n -> K <= idx) /\
  idx * 2 ^ E * 2 ^ 53 < m * n * 2 ^ 53 + n * 2 ^ E.
Proof.
  intros Hm HE HmE Hn. unfold mul, floor, ofZ. cbn [mant expo].
  set (a := m * n).
  assert (Ha : 0 < a) by (unfold a; nia).
  assert (HB : 0 < 2 ^ E) by (apply Z.pow_pos_nonneg; lia).
  set (B := 2 ^ E) in *.
  destruct (Z.log2_spec a Ha) as [Hlo Hhi].
  destruct (Z.leb_spec (Z.max (Z.log2 a - 52) (-1074 - (- E + 0))) 0) as [Hs | Hs].
  - cbn [mant expo]. destruct (Z.leb_spec 0 (- E + 0)); [lia |].
    replace (- (- E + 0)) with E by lia. fold B.
    pose proof (Z.mul_div_le a B HB) as Hd. split.
    + intros K HK. apply Z.div_le_lower_bound; lia.
    + nia.
  - set (s := Z.log2 a - 52) in *.
    assert (Hs0 : 0 < s) by lia.
    replace (Z.max s (-1074 - (- E + 0))) with s by lia.
    cbn [mant expo].
    replace (Z.log2 a) with (52 + s) in Hlo by (unfold s; lia).
    replace (Z.succ (Z.log2 a)) with (53 + s) in Hhi by (unfold s; lia).
    assert (HsE : s <= E).
    { assert (2 ^ (52 + s) < 2 ^ (53 + E)).
      { rewrite (Z.pow_add_r 2 53 E) by lia. fold B. nia. }
      apply Z.pow_lt_mono_r_iff in H; lia. }
    assert (HP : 0 < 2 ^ s) by (apply Z.pow_pos_nonneg; lia).
    assert (HH : 0 < 2 ^ (s - 1)) by (apply Z.pow_pos_nonneg; lia).
    assert (HC : 0 < 2 ^ (E - s)) by (apply Z.pow_pos_nonneg; lia).
    assert (HBs : B = 2 ^ (E - s) * 2 ^ s).
    { unfold B. rewrite <- Z.pow_add_r by lia. f_equal. lia. }
    assert (Hlo' : 2 ^ (52 + s) = 2 ^ 53 * 2 ^ (s - 1)).
    { rewrite <- Z.pow_add_r by lia. f_equal. lia. }
    destruct (roundShift_bounds a s ltac:(lia) Hs0) as [Hq Hr].
    set (rs := roundShift a s) in *.
    assert (Hidx : (if 0 <=? - E + 0 + s then rs * 2 ^ (- E + 0 + s)
                    else rs / 2 ^ (- (- E + 0 + s))) = rs / 2 ^ (E - s)).
    { destruct (Z.leb_spec 0 (- E + 0 + s)).
      - replace (- E + 0 + s) with 0 by lia. replace (E - s) with 0 by lia.
        rewrite Z.pow_0_r, Z.div_1_r. lia.
      - f_equal. f_equal. lia. }
    rewrite Hidx. set (C := 2 ^ (E - s)) in *. set (P := 2 ^ s) in *.
    set (H := 2 ^ (s - 1)) in *.
    pose proof (Z.mul_div_le rs C HC) as Hd. split.
    + intros K HK. apply Z.div_le_lower_bound; [lia |].
      assert (K * C <= a / P); [| lia].
      apply Z.div_le_lower_bound; [lia |]. nia.
    + assert (rs / C * B <= a + H) by nia.
      assert (H * 2 ^ 53 < n * B) by (unfold a in *; nia).
      nia.
Qed.

Lemma Qfrac_le (K m n B : Z) :
  0 < B ->
  (inject_Z K <= inject_Z m / inject_Z B * inject_Z n)%Q <-> K * B <= m * n.
Proof.
  intros HB. rewrite (Qfrac_eq m B HB). destruct B as [| p | p]; try lia.
  unfold Qle, Qmult, inject_Z. simpl.
  rewrite ?Pos.mul_1_r, ?Z.mul_1_r. reflexivity.
Qed.

Lemma Qfrac_lt (K m n B : Z) :
  0 < B ->
  (inject_Z K < inject_Z m / inject_Z B * inject_Z n + inject_Z n * Qpower 2 (-53))%Q <->
  K * B * 2 ^ 53 < m * n * 2 ^ 53 + n * B.
Proof.
  intros HB. rewrite (Qfrac_eq m B HB). destruct B as [| p | p]; try lia.
  change (Qpower 2 (-53)) with (1 # Z.to_pos (2 ^ 53))%Q.
  unfold Qlt, Qplus, Qmult, inject_Z. cbn [Qnum Qden Z.to_pos].
  rewrite ?Pos.mul_1_r, ?Z.mul_1_r, ?Pos.mul_1_l. rewrite Pos2Z.inj_mul.
  set (P := Z.pos p). change (Z.pos (Z.to_pos (2^53))) with (2^53).
  change (Z.pos (Pos.pow 2 53)) with (2 ^ 53). lia.
Qed.

(** The index computed for a pool of [n] elements, against the exact
    product of the random value and [n]. *)
Lemma index_bounds (d : double) (n : Z) :
  finite d -> (value d < 1)%Q -> 0 < n < 2 ^ 53 ->
  let idx := floor (mul d (ofZ n)) in
  (forall K, (inject_Z K <= value d * inject_Z n)%Q -> K <= idx) /\
  (inject_Z idx < value d * inject_Z n + inject_Z n * Qpower 2 (-53))%Q.
Proof.
  intros Hf Hv Hn idx.
  destruct (value_unit d Hf Hv) as [[Hm Hv0] | (Hm & He & HmE & Hval)].
  - assert (Hidx : idx = 0).
    { unfold idx, mul, floor, ofZ. destruct d as [m e]. cbn [mant expo] in *.
      subst m. destruct Hf as [_ Hf]. cbn [expo] in Hf.
      change (0 * n) with 0. change (Z.log2 0) with 0.
      destruct (Z.leb_spec (Z.max (0 - 52) (-1074 - (e + 0))) 0); [| lia].
      cbn [mant expo]. destruct (0 <=? e + 0); [done | apply Zdiv_0_l]. }
    rewrite Hidx. split.
    + intros K HK. rewrite Hv0, Qmult_0_l in HK.
      change 0%Q with (inject_Z 0) in HK. by rewrite <- Zle_Qle in HK.
    + rewrite Hv0, Qmult_0_l, Qplus_0_l.
      apply Qmult_lt_0_compat; [| reflexivity].
      change 0%Q with (inject_Z 0). rewrite <- Zlt_Qlt. lia.
  - destruct Hf as [Hm53 Hexp].
    assert (HB : 0 < 2 ^ (- expo d)) by (apply Z.pow_pos_nonneg; lia).
    destruct (mul_floor_core (mant d) (- expo d) n) as [H1 H2]; [lia .. |].
    rewrite Z.opp_involutive in H1, H2.
    replace (mkDouble (mant d) (expo d)) with d in H1, H2 by (by destruct d).
    fold idx in H1, H2. split.
    + intros K HK. apply H1. apply (Qfrac_le K (mant d) n _ HB).
      by rewrite <- Hval.
    + rewrite Hval. apply (Qfrac_lt idx (mant d) n _ HB). exact H2.
Qed.

(** The largest double below 1 is [1 - 2^-53]. *)
Lemma value_below_one (d : double) :
  finite d -> (value d < 1)%Q -> (value d <= 1 - Qpower 2 (-53))%Q.
Proof.
  intros Hf Hv.
  destruct (value_unit d Hf Hv) as [[Hm Hv0] | (Hm & He & HmE & Hval)].
  - rewrite Hv0. done.
  - destruct Hf as [Hm53 Hexp].
    assert (HB : 0 < 2 ^ (- expo d)) by (apply Z.pow_pos_nonneg; lia).
    rewrite Hval, (Qfrac_eq _ _ HB).
    destruct (2 ^ (- expo d)) as [| p | p] eqn:EB; try lia.
    change (Qpower 2 (-53)) with (1 # Z.to_pos (2 ^ 53))%Q.
    unfold Qle, Qminus, Qplus, Qopp. cbn [Qnum Qden Z.to_pos].
    rewrite ?Pos.mul_1_l, ?Z.mul_1_l.
    change (Z.pos (Pos.pow 2 53)) with (2 ^ 53) in *.
    set (P := Z.pos p) in *.
    destruct (Z.le_gt_cases (2 ^ 53) P); nia.
Qed.

(** Sample products: [0.5 * 3], [0.75 * 2], the largest double below 1
    times 3 (which rounds to [3 - 2^-51], not to 3), the double just
    below 2/3 times 3 (which rounds up to 2), its predecessor, and the
    smallest subnormal times 3. *)
Example product_samples :
  floor (mul (mkDouble 1 (-1)) (ofZ 3)) = 1 /\
  floor (mul (mkDouble 3 (-2)) (ofZ 2)) = 1 /\
  mul (mkDouble 9007199254740991 (-53)) (ofZ 3) = mkDouble 6755399441055743 (-51) /\
  floor (mul (mkDouble 9007199254740991 (-53)) (ofZ 3)) = 2 /\
  mul (mkDouble 6004799503160661 (-53)) (ofZ 3) = mkDouble 9007199254740992 (-52) /\
  floor (mul (mkDouble 6004799503160661 (-53)) (ofZ 3)) = 2 /\
  floor (mul (mkDouble 6004799503160660 (-53)) (ofZ 3)) = 1 /\
  mul (mkDouble 1 (-1074)) (ofZ 3) = mkDouble 3 (-1074).
Proof. vm_compute. done. Qed.

End DoubleFacts.

Section CannedResponse.
Import JsString Regex Types AiAgent AgentSpec.

Lemma inject_Z_pos (n : nat) : (0 < n)%nat -> (0 < inject_Z (Z.of_nat n))%Q.
Proof. intros H. change 0%Q with (inject_Z 0). rewrite <- Zlt_Qlt. lia. Qed.

Lemma value_nonneg (d : Double.double) : Double.finite d -> (0 <= Double.value d)%Q.
Proof.
  intros [[Hm _] _]. unfold Double.value. apply Qmult_le_0_compat.
  - change 0%Q with (inject_Z 0). by rewrite <- Zle_Qle.
  - by apply Qpower_pos.
Qed.


(** With [rnd] a value of [Math.random()], the index falls inside a
    non-empty pool: the rounded product never reaches the length. *)
Lemma getRandomResponse_index (pool : list string) (rnd : Double.double) :
  randomValue rnd -> pool <> [] -> (Z.of_nat (length pool) < 2 ^ 53)%Z ->
  exists i c,
    pool !! i = Some c /\ getRandomResponse pool rnd = Some c /\
    Double.floor (Double.mul rnd (Double.ofZ (Z.of_nat (length pool)))) =
      Z.of_nat i.
Proof.
  intros [Hf Hv] Hne H53.
  assert (Hn : (0 < length pool)%nat) by (destruct pool; [done | simpl; lia]).
  pose proof (inject_Z_pos _ Hn) as HN.
  destruct (index_bounds rnd (Z.of_nat (length pool)) Hf Hv ltac:(lia))
    as [Hlow Hup].
  unfold getRandomResponse.
  set (z := Double.floor (Double.mul rnd (Double.ofZ (Z.of_nat (length pool))))) in *.
  set (N := inject_Z (Z.of_nat (length pool))) in *.
  assert (Hz0 : (0 <= z)%Z).
  { apply Hlow. apply Qmult_le_0_compat;
      [by apply value_nonneg | by apply Qlt_le_weak]. }
  assert (Hz1 : (z < Z.of_nat (length pool))%Z).
  { rewrite Zlt_Qlt. fold N. eapply Qlt_le_trans; [exact Hup |].
    pose proof (value_below_one rnd Hf Hv) as Hmax.
    apply (Qmult_le_compat_r _ _ N) in Hmax; [| by apply Qlt_le_weak].
    apply (Qplus_le_l _ _ (N * Qpower 2 (-53))) in Hmax.
    assert (E : ((1 - Qpower 2 (-53)) * N + N * Qpower 2 (-53) == N)%Q) by ring.
    by rewrite E in Hmax. }
  destruct (lookup_lt_is_Some_2 pool (Z.to_nat z)) as [c Hc]; [lia |].
  exists (Z.to_nat z), c. split; [done |]. split; [| lia].
  destruct (Z.ltb_spec z 0); [lia | done].
Qed.

(** The category is one of the five keys of [mockResponses], and each
    pool is non-empty, short and without repetition. *)
Lemma category_pool (payload : AIAgentPayload) :
  exists pool,
    mockResponses !! getResponseCategory payload = Some pool /\
    pool <> [] /\ NoDup pool /\ (length pool <= 3)%nat.
Proof.
  unfold getResponseCategory.
  destruct (testAnchored greetingRe _); [| destruct (test codeRe _)];
    [ | | destruct (pl_attachments payload) as [[| a rest] |];
          [ | destruct (startsWith _ _) | ] ];
    eexists; (split; [reflexivity |
              split; [discriminate | split; [compute_done | simpl; lia]]]).
Qed.





(** How the five categories come out on sample payloads. *)
Example categories :
  getResponseCategory (withText "Hello there" None) = "greeting" /\
  getResponseCategory (withText "HI, write some code" None) = "greeting" /\
  getResponseCategory (withText "Explain this API" None) = "code" /\
  getResponseCategory (withText "what is this?" (Some [ChatSpec.photo])) = "image" /\
  getResponseCategory
    (withText "see attached"
       (Some [mkAttachment "att_2" "a.pdf" "application/pdf" 10 "blob:a" None])) = "file" /\
  getResponseCategory (withText "what is this?" (Some [])) = "default" /\
  getResponseCategory (withText "say hello" None) = "default".
Proof. vm_compute. done. Qed.

End CannedResponse.

(* ===================================================================== *)
(** * Further properties *)
(* ===================================================================== *)

(** ** Authentication: how the operations compose *)

Section AuthFlowFacts.
Import Types Auth AuthSpec AuthFlowSpec.

Lemma emailTaken_emails (users : list jsobj) (email : string) :
  emailTaken users email <-> email ∈ emails users.
Proof.
  unfold emailTaken, emails. rewrite list_elem_of_omap.
  split; intros (u & Hu & He); by exists u.
Qed.

Lemma emails_snoc (users : list jsobj) (u : jsobj) (e : string) :
  u !! "email" = Some e -> emails (users ++ [u])%list = (emails users ++ [e])%list.
Proof. intros He. unfold emails. rewrite omap_app. simpl. by rewrite He. Qed.

Lemma newUserOf_email data clk : newUserOf data clk !! "email" = Some (rf_email data).
Proof. unfold newUserOf. by simplify_map_eq. Qed.

Lemma newUserOf_password data clk :
  newUserOf data clk !! "password" = Some (rf_password data).
Proof. unfold newUserOf. by simplify_map_eq. Qed.

(** The two outcomes of [registerUser], as equations. *)
Lemma registerUser_taken data clk (w : Window) :
  emailTaken (getStoredUsers w) (rf_email data) ->
  registerUser data clk w = (w, duplicateEmail).
Proof.
  intros H. apply emailTaken_some in H. unfold registerUser. by rewrite H.
Qed.

Lemma registerUser_fresh data clk (w : Window) :
  ~ emailTaken (getStoredUsers w) (rf_email data) ->
  registerUser data clk w =
    (saveUsers (getStoredUsers w ++ [newUserOf data clk])%list w,
     {| success := true; user := Some (delete "password" (newUserOf data clk));
        error := None |}).
Proof.
  intros H. unfold registerUser.
  destruct (some _ (getStoredUsers w)) eqn:E; [| reflexivity].
  apply emailTaken_some in E. contradiction.
Qed.

Lemma emailTaken_dec (users : list jsobj) (email : string) :
  emailTaken users email \/ ~ emailTaken users email.
Proof.
  destruct (some (fun u => fieldIs u "email" email) users) eqn:E.
  - left. by apply emailTaken_some.
  - right. intros H. apply emailTaken_some in H. congruence.
Qed.

Lemma getStoredUsers_saveUsers users (ls : LocalStorage) :
  getStoredUsers (saveUsers users (Some ls)) = users.
Proof. reflexivity. Qed.

Lemma find_snoc_none {A} (p : A -> bool) (l : list A) (x : A) :
  find p l = None -> find p (l ++ [x])%list = if p x then Some x else None.
Proof.
  unfold find. induction l as [| a l IH]; simpl; [done |].
  destruct (p a); [discriminate | exact IH].
Qed.

Lemma find_snoc_some {A} (p : A -> bool) (l : list A) (x y : A) :
  find p l = Some y -> find p (l ++ [x])%list = Some y.
Proof.
  unfold find. induction l as [| a l IH]; simpl; [discriminate |].
  destruct (p a); [done | exact IH].
Qed.

(** The users a registration leaves behind. *)
Lemma registerUser_users data clk (w : Window) :
  getStoredUsers (registerUser data clk w).1 = getStoredUsers w \/
  (~ emailTaken (getStoredUsers w) (rf_email data) /\
   getStoredUsers (registerUser data clk w).1
     = (getStoredUsers w ++ [newUserOf data clk])%list).
Proof.
  destruct (emailTaken_dec (getStoredUsers w) (rf_email data)) as [H | H].
  - left. by rewrite registerUser_taken.
  - rewrite registerUser_fresh by done. simpl.
    destruct w as [ls |]; [right; by split | left; reflexivity].
Qed.

Lemma loginUser_users data (w : Window) :
  getStoredUsers (loginUser data w).1 = getStoredUsers w.
Proof.
  unfold loginUser. destruct (find _ _); [| done]. by destruct w.
Qed.

Lemma authStep_users_prefix op (w : Window) :
  getStoredUsers w `prefix_of` getStoredUsers (authStep op w).
Proof.
  destruct op as [data clk | data |]; simpl.
  - destruct (registerUser_users data clk w) as [-> | [_ ->]];
      [done | by apply prefix_app_r].
  - by rewrite loginUser_users.
  - by destruct w.
Qed.

(** Logging in right after a registration that went through. *)
Lemma loginUser_after_register
    (data : RegisterFormData) (clk : Clock) (ls : LocalStorage) :
  ~ emailTaken (getStoredUsers (Some ls)) (rf_email data) ->
  loginUser (credentialsOf data)
    (saveUsers (getStoredUsers (Some ls) ++ [newUserOf data clk])%list (Some ls))
  = (Some {| ai_chat_users := Some (getStoredUsers (Some ls) ++ [newUserOf data clk])%list;
             ai_chat_current_user := Some (delete "password" (newUserOf data clk)) |},
     {| success := true; user := Some (delete "password" (newUserOf data clk));
        error := None |}).
Proof.
  intros Hfree.
  assert (Hfind :
    find (fun u => fieldIs u "email" (rf_email data)
                   && fieldIs u "password" (rf_password data))
      (getStoredUsers (Some ls) ++ [newUserOf data clk])%list
    = Some (newUserOf data clk)).
  { rewrite find_snoc_none.
    - assert (fieldIs (newUserOf data clk) "email" (rf_email data) = true) as ->
        by (apply fieldIs_true, newUserOf_email).
      assert (fieldIs (newUserOf data clk) "password" (rf_password data) = true) as ->
        by (apply fieldIs_true, newUserOf_password).
      reflexivity.
    - apply find_none_iff. intros u Hu.
      apply andb_false_iff. left.
      destruct (fieldIs u "email" (rf_email data)) eqn:E; [| done].
      destruct Hfree. exists u. split; [done | by apply fieldIs_true]. }
  unfold loginUser, credentialsOf. simpl. simpl in Hfind.
  rewrite Hfind. done.
Qed.

(** X1.  Register, then log in with the same email and password: on a
    browser where the email was free, the login succeeds, returns the
    very object the registration returned, and makes it the session
    record; the user list is the one the registration left. *)
Theorem register_then_login
    (data : RegisterFormData) (clk : Clock) (ls : LocalStorage) :
  ~ emailTaken (getStoredUsers (Some ls)) (rf_email data) ->
  let reg := registerUser data clk (Some ls) in
  let log := loginUser (credentialsOf data) reg.1 in
  success reg.2 = true /\
  log.2 = reg.2 /\
  getCurrentUser log.1 = user reg.2 /\
  getStoredUsers log.1 = getStoredUsers reg.1.
Proof.
  intros Hfree reg log. subst reg log.
  rewrite registerUser_fresh by done.
  split; [reflexivity |].
  cbn [fst snd]. rewrite (loginUser_after_register data clk ls Hfree). done.
Qed.

Lemma register_then_login_witness :
  let reg := registerUser adaForm (mkClock 5 "abc" "t5") (Some emptyStore) in
  let log := loginUser (credentialsOf adaForm) reg.1 in
  success reg.2 = true /\ log.2 = reg.2 /\
  getCurrentUser log.1 = user reg.2 /\
  getStoredUsers log.1 = getStoredUsers reg.1.
Proof.
  apply (register_then_login adaForm (mkClock 5 "abc" "t5") emptyStore).
  intros (u & Hu & _). inversion Hu.
Defined.

(** X2.  Emails stay unique: if no two stored records share an email,
    then after any sequence of registrations, logins and logouts no two
    stored records share one, and the earlier records are still there, in
    place, at the front of the list. *)
Theorem emails_stay_unique (ops : list AuthOp) (w : Window) :
  NoDup (emails (getStoredUsers w)) ->
  NoDup (emails (getStoredUsers (authRun ops w))) /\
  getStoredUsers w `prefix_of` getStoredUsers (authRun ops w).
Proof.
  revert w. induction ops as [| op ops IH]; intros w Hnd; [done |].
  change (authRun (op :: ops) w) with (authRun ops (authStep op w)).
  assert (Hstep : NoDup (emails (getStoredUsers (authStep op w)))).
  { destruct op as [data clk | data |]; simpl.
    - destruct (registerUser_users data clk w) as [-> | [Hfree ->]]; [done |].
      rewrite (emails_snoc _ _ _ (newUserOf_email data clk)).
      apply NoDup_app. split; [done |]. split; [| apply NoDup_singleton].
      intros e He Hin. apply list_elem_of_singleton in Hin as ->.
      by apply Hfree, emailTaken_emails.
    - by rewrite loginUser_users.
    - by destruct w. }
  destruct (IH _ Hstep) as [H1 H2]. split; [done |].
  etrans; [apply authStep_users_prefix | exact H2].
Qed.

Lemma emails_stay_unique_witness :
  NoDup (emails (getStoredUsers
    (authRun [Register adaForm (mkClock 1 "a" "t1");
              Register adaForm (mkClock 2 "b" "t2");
              Register bobForm (mkClock 3 "c" "t3");
              Login (credentialsOf bobForm); Logout]
       (Some emptyStore)))).
Proof.
  apply (emails_stay_unique _ (Some emptyStore)).
  apply NoDup_nil_2.
Defined.

(** X3.  The session record never carries a password: if it is a stored
    user without the password field (or absent), it still is after any
    sequence of registrations, logins and logouts. *)
Theorem session_never_holds_password (ops : list AuthOp) (w : Window) :
  sessionIsStoredUser w ->
  sessionIsStoredUser (authRun ops w) /\
  forall u, getCurrentUser (authRun ops w) = Some u -> u !! "password" = None.
Proof.
  intros Hw.
  assert (H : sessionIsStoredUser (authRun ops w)).
  { revert w Hw. induction ops as [| op ops IH]; intros w Hw; [done |].
    change (authRun (op :: ops) w) with (authRun ops (authStep op w)).
    apply IH. intros u Hu.
    destruct op as [data clk | data |]; simpl in *.
    - assert (Hcur : getCurrentUser (registerUser data clk w).1 = getCurrentUser w).
      { destruct (emailTaken_dec (getStoredUsers w) (rf_email data)) as [H | H].
        - by rewrite registerUser_taken.
        - rewrite registerUser_fresh by done. by destruct w. }
      rewrite Hcur in Hu. destruct (Hw u Hu) as (su & Hsu & ->).
      exists su. split; [| done].
      destruct (authStep_users_prefix (Register data clk) w) as [k Hk].
      simpl in Hk. rewrite Hk. apply elem_of_app. by left.
    - rewrite loginUser_users. unfold loginUser in Hu.
      destruct (find _ (getStoredUsers w)) as [su |] eqn:E.
      + destruct w as [ls |]; [| done]. simpl in Hu. injection Hu as <-.
        exists su. split; [| done].
        unfold find in E. apply find_some in E as [Hin _].
        by apply list_elem_of_In.
      + by apply Hw.
    - by destruct w. }
  split; [done |].
  intros u Hu. destruct (H u Hu) as (su & _ & ->). by simplify_map_eq.
Qed.

Lemma session_never_holds_password_witness :
  getCurrentUser
    (authRun [Register adaForm (mkClock 1 "a" "t1"); Login (credentialsOf adaForm)]
       (Some emptyStore))
  = Some (delete "password" (newUserOf adaForm (mkClock 1 "a" "t1"))) /\
  (delete "password" (newUserOf adaForm (mkClock 1 "a" "t1")) : jsobj) !! "password" = None.
Proof.
  split; [reflexivity |].
  apply (session_never_holds_password
           [Register adaForm (mkClock 1 "a" "t1"); Login (credentialsOf adaForm)]
           (Some emptyStore)).
  - intros u Hu. discriminate Hu.
  - reflexivity.
Defined.

(** The result of a login depends on the stored users only. *)
Lemma loginUser_result (d : LoginFormData) (w : Window) :
  (loginUser d w).2 =
    match find (fun u => fieldIs u "email" (lf_email d)
                         && fieldIs u "password" (lf_password d))
            (getStoredUsers w) with
    | Some u => {| success := true; user := Some (delete "password" u);
                   error := None |}
    | None => invalidCredentials
    end.
Proof. unfold loginUser. by destruct (find _ _). Qed.

(** X4.  A login that succeeds keeps succeeding, with the same result,
    after any later registration, whether that one succeeds or not. *)
Theorem login_survives_registration
    (d : LoginFormData) (data : RegisterFormData) (clk : Clock) (w : Window) :
  success (loginUser d w).2 = true ->
  (loginUser d (registerUser data clk w).1).2 = (loginUser d w).2.
Proof.
  rewrite !loginUser_result. intros Hok.
  destruct (registerUser_users data clk w) as [Hsame | [_ Happ]].
  - by rewrite Hsame.
  - destruct (find _ (getStoredUsers w)) as [u |] eqn:E; [| discriminate].
    by rewrite Happ, (find_snoc_some _ _ _ _ E).
Qed.

Lemma login_survives_registration_witness :
  (loginUser (mkLoginFormData "ada@example.org" "s3cret!")
     (registerUser bobForm (mkClock 9 "z" "t9") (Some adaStore)).1).2
  = (loginUser (mkLoginFormData "ada@example.org" "s3cret!") (Some adaStore)).2.
Proof.
  apply (login_survives_registration _ bobForm (mkClock 9 "z" "t9") (Some adaStore)).
  reflexivity.
Defined.

(** X5.  Without a [window] (server side) nothing is stored: a
    registration reports success whatever the email, even twice in a row
    for the same email, and a login with the very same credentials fails
    right after. *)
Theorem server_side_registration_is_lost
    (data : RegisterFormData) (clk clk' : Clock) :
  let reg := registerUser data clk None in
  let again := registerUser data clk' reg.1 in
  success reg.2 = true /\ success again.2 = true /\
  again.1 = None /\
  loginUser (credentialsOf data) again.1 = (None, invalidCredentials).
Proof. done. Qed.

(** X6.  Logging out through the user store clears the store's user and
    the session record together and keeps the registered users: a reload
    ([initialize]) finds nobody logged in, and every login gives the
    result it gave before. *)
Theorem logout_clears_session_only
    (w : Window) (s : UserStore.UserState) (d : LoginFormData) :
  let out := UserStore.logout w s in
  UserStore.user out.2 = None /\
  getCurrentUser out.1 = None /\
  isLoggedIn out.1 = false /\
  UserStore.user (UserStore.initialize out.1 out.2) = None /\
  getStoredUsers out.1 = getStoredUsers w /\
  (loginUser d out.1).2 = (loginUser d w).2.
Proof.
  simpl. destruct w as [ls |]; [| done].
  repeat (split; [reflexivity |]).
  by rewrite !loginUser_result.
Qed.

End AuthFlowFacts.

(** ** Anchored patterns *)

Section RegexExtFacts.
Import JsString Regex RegexExt FormSpec.

Lemma testExact_spec r s : testExact r s = true <-> matches r s.
Proof.
  revert r. induction s as [| c s IH]; intros r; simpl.
  - apply nullable_matches.
  - rewrite IH. apply deriv_matches.
Qed.

Lemma matches_chr (p : ascii) (u : string) :
  matches (chr p) u <-> u = String p "".
Proof.
  unfold chr. rewrite matches_Cls. split.
  - intros (c & -> & H). apply Ascii.eqb_eq in H. by subst.
  - intros ->. exists p. split; [done | apply Ascii.eqb_refl].
Qed.

Lemma matches_star_cls (p : ascii -> bool) (u : string) :
  matches (Star (Cls p)) u <-> allChars p u = true.
Proof.
  split.
  - intros H. remember (Star (Cls p)) as r eqn:Hr.
    induction H; try discriminate; [done |].
    injection Hr as ->. apply matches_Cls in H as (c & -> & Hc).
    rewrite append_cons, append_nil_l. simpl. rewrite Hc. by apply IHmatches2.
  - induction u as [| c u IH]; simpl; intros H; [constructor |].
    apply andb_true_iff in H as [Hc H].
    change (String c u) with (String c "" +:+ u).
    apply m_star_cons; [by constructor | by apply IH].
Qed.

Lemma matches_plus_cls (p : ascii -> bool) (u : string) :
  matches (plus (Cls p)) u <-> u <> "" /\ allChars p u = true.
Proof.
  unfold plus. rewrite matches_Cat. split.
  - intros (x & y & -> & Hx & Hy). apply matches_Cls in Hx as (c & -> & Hc).
    apply matches_star_cls in Hy. rewrite append_cons, append_nil_l. simpl.
    by rewrite Hc, Hy.
  - intros [Hne H]. destruct u as [| c u]; [done |]. simpl in H.
    apply andb_true_iff in H as [Hc H].
    exists (String c ""), u. split; [done |].
    split; [by apply matches_Cls; eexists | by apply matches_star_cls].
Qed.

Lemma matches_times_cls (n : nat) (p : ascii -> bool) (u : string) :
  matches (times n (Cls p)) u <-> String.length u = n /\ allChars p u = true.
Proof.
  revert u. induction n as [| n IH]; intros u; simpl.
  - rewrite matches_Eps. split; [by intros -> | by intros [H _]; destruct u].
  - rewrite matches_Cat. split.
    + intros (x & y & -> & Hx & Hy). apply matches_Cls in Hx as (c & -> & Hc).
      apply IH in Hy as [Hl Hy]. rewrite append_cons, append_nil_l. simpl.
      by rewrite Hc, Hy, Hl.
    + intros [Hl H]. destruct u as [| c u]; [done |]. simpl in *.
      apply andb_true_iff in H as [Hc H].
      exists (String c ""), u. split; [done |].
      split; [by apply matches_Cls; eexists | apply IH; split; [lia | done]].
Qed.

Lemma allChars_append p (u v : string) :
  allChars p (u +:+ v) = allChars p u && allChars p v.
Proof.
  induction u as [| c u IH]; [done |].
  rewrite append_cons. simpl. by rewrite IH, andb_assoc.
Qed.

Lemma length_append (u v : string) :
  String.length (u +:+ v) = (String.length u + String.length v)%nat.
Proof. induction u as [| c u IH]; [done |]. rewrite append_cons. simpl. by rewrite IH. Qed.

(** A text of at least [n] characters splits after its first [n]. *)
Lemma split_at (n : nat) (u : string) :
  (n <= String.length u)%nat ->
  exists x y, u = x +:+ y /\ String.length x = n.
Proof.
  revert u. induction n as [| n IH]; intros u H.
  - by exists "", u.
  - destruct u as [| c u]; simpl in H; [lia |].
    destruct (IH u) as (x & y & -> & Hx); [lia |].
    exists (String c x), y. split; [done | simpl; lia].
Qed.

Lemma matches_atLeast_cls (n : nat) (p : ascii -> bool) (u : string) :
  matches (atLeast n (Cls p)) u <-> (n <= String.length u)%nat /\ allChars p u = true.
Proof.
  unfold atLeast. rewrite matches_Cat. split.
  - intros (x & y & -> & Hx & Hy).
    apply matches_times_cls in Hx as [Hl Hx]. apply matches_star_cls in Hy.
    rewrite length_append, allChars_append, Hx, Hy. split; [lia | done].
  - intros [Hl H]. destruct (split_at n u Hl) as (x & y & -> & Hx).
    rewrite allChars_append in H. apply andb_true_iff in H as [H1 H2].
    exists x, y. split; [done |].
    split; [by apply matches_times_cls | by apply matches_star_cls].
Qed.

End RegexExtFacts.

(** ** The form validators *)

Section FormValidatorFacts.
Import JsString Regex RegexExt FormValidators FormSpec.

Lemma countChar_append x (u v : string) :
  countChar x (u +:+ v) = (countChar x u + countChar x v)%nat.
Proof.
  induction u as [| c u IH]; [done |].
  rewrite append_cons. simpl. rewrite IH. lia.
Qed.

Lemma notSpaceNorAt_count (u : string) :
  allChars notSpaceNorAt u = true ->
  countChar "@" u = 0%nat /\ allChars (fun c => negb (isWhiteSpace c)) u = true.
Proof.
  induction u as [| c u IH]; simpl; [done |].
  intros H. apply andb_true_iff in H as [Hc H]. destruct (IH H) as [-> ->].
  unfold notSpaceNorAt in Hc. apply negb_true_iff, orb_false_iff in Hc as [-> ->].
  done.
Qed.

(** X7.  [isValidEmail] accepts exactly the texts of the form [a@b.c]
    where [a], [b] and [c] are non-empty and hold neither white space nor
    '@'.  So an accepted address has exactly one '@' and no white space
    anywhere. *)
Theorem isValidEmail_shape (s : string) :
  (isValidEmail s = true <->
     exists a b c,
       s = a +:+ "@" +:+ b +:+ "." +:+ c /\
       a <> "" /\ b <> "" /\ c <> "" /\
       allChars notSpaceNorAt a = true /\
       allChars notSpaceNorAt b = true /\
       allChars notSpaceNorAt c = true) /\
  (isValidEmail s = true ->
     countChar "@" s = 1%nat /\
     allChars (fun c => negb (isWhiteSpace c)) s = true).
Proof.
  assert (Hshape : isValidEmail s = true <->
     exists a b c,
       s = a +:+ "@" +:+ b +:+ "." +:+ c /\
       a <> "" /\ b <> "" /\ c <> "" /\
       allChars notSpaceNorAt a = true /\
       allChars notSpaceNorAt b = true /\
       allChars notSpaceNorAt c = true).
  { unfold isValidEmail, emailRegex. rewrite testExact_spec. split.
    - intros H.
      apply matches_Cat in H as (a & r1 & -> & Ha & H).
      apply matches_Cat in H as (at' & r2 & -> & Hat & H).
      apply matches_Cat in H as (b & r3 & -> & Hb & H).
      apply matches_Cat in H as (dot & c & -> & Hdot & Hc).
      apply matches_chr in Hat as ->. apply matches_chr in Hdot as ->.
      apply matches_plus_cls in Ha as [? ?]. apply matches_plus_cls in Hb as [? ?].
      apply matches_plus_cls in Hc as [? ?].
      by exists a, b, c.
    - intros (a & b & c & -> & Ha & Hb & Hc & Pa & Pb & Pc).
      apply matches_Cat. exists a, ("@" +:+ b +:+ "." +:+ c). split; [done |].
      split; [by apply matches_plus_cls |].
      apply matches_Cat. exists "@", (b +:+ "." +:+ c). split; [done |].
      split; [by apply matches_chr |].
      apply matches_Cat. exists b, ("." +:+ c). split; [done |].
      split; [by apply matches_plus_cls |].
      apply matches_Cat. exists ".", c. split; [done |].
      split; [by apply matches_chr | by apply matches_plus_cls]. }
  split; [exact Hshape |].
  intros H. apply Hshape in H as (a & b & c & -> & _ & _ & _ & Pa & Pb & Pc).
  destruct (notSpaceNorAt_count a Pa) as [Ca Wa].
  destruct (notSpaceNorAt_count b Pb) as [Cb Wb].
  destruct (notSpaceNorAt_count c Pc) as [Cc Wc].
  rewrite !countChar_append, !allChars_append, Ca, Cb, Cc, Wa, Wb, Wc. done.
Qed.

Lemma isValidEmail_shape_witness :
  isValidEmail "ada.l@example.org" = true /\
  countChar "@" "ada.l@example.org" = 1%nat.
Proof.
  destruct (isValidEmail_shape "ada.l@example.org") as [Hiff Hone].
  assert (H : isValidEmail "ada.l@example.org" = true).
  { apply Hiff. exists "ada.l", "example", "org". by repeat split. }
  split; [exact H | apply (Hone H)].
Defined.

(** X8.  [isValidMobile] accepts exactly an optional '+' followed by at
    least ten characters, each a digit, a white-space character or a
    hyphen.  It asks for no digit: ten or more blanks pass. *)
Theorem isValidMobile_shape (s : string) :
  (isValidMobile s = true <->
     exists body,
       (s = body \/ s = "+" +:+ body) /\
       (10 <= String.length body)%nat /\
       allChars digitSpaceOrHyphen body = true) /\
  (ChatSpec.whitespaceOnly s = true -> (10 <= String.length s)%nat ->
     isValidMobile s = true).
Proof.
  assert (Hshape : isValidMobile s = true <->
     exists body,
       (s = body \/ s = "+" +:+ body) /\
       (10 <= String.length body)%nat /\
       allChars digitSpaceOrHyphen body = true).
  { unfold isValidMobile, mobileRegex. rewrite testExact_spec, matches_Cat. split.
    - intros (x & body & -> & Hx & Hb).
      apply matches_atLeast_cls in Hb as [Hl Hb].
      exists body. split; [| done].
      apply matches_Alt in Hx as [Hx | Hx].
      + apply matches_chr in Hx as ->. by right.
      + apply matches_Eps in Hx as ->. by left.
    - intros (body & [-> | ->] & Hl & Hb).
      + exists "", body. split; [done |].
        split; [apply matches_Alt; right; by apply matches_Eps |].
        by apply matches_atLeast_cls.
      + exists "+", body. split; [done |].
        split; [apply matches_Alt; left; by apply matches_chr |].
        by apply matches_atLeast_cls. }
  split; [exact Hshape |].
  intros Hws Hl. apply Hshape. exists s. split; [by left |]. split; [done |].
  clear Hl Hshape. induction s as [| c s IH]; [done |]. simpl in *.
  apply andb_true_iff in Hws as [Hc Hws].
  unfold digitSpaceOrHyphen at 1. rewrite Hc, orb_true_r. simpl. by apply IH.
Qed.

Lemma isValidMobile_shape_witness :
  isValidMobile "          " = true /\ isValidMobile "+44 20-7946-0958" = true.
Proof.
  destruct (isValidMobile_shape "          ") as [_ Hblank].
  destruct (isValidMobile_shape "+44 20-7946-0958") as [[_ Hshape] _].
  split.
  - apply Hblank; [reflexivity | simpl; lia].
  - apply Hshape. exists "44 20-7946-0958".
    split; [by right |]. split; [simpl; lia | reflexivity].
Defined.

Lemma trimStart_pad (pre s : string) :
  ChatSpec.whitespaceOnly pre = true -> trimStart (pre +:+ s) = trimStart s.
Proof.
  induction pre as [| c pre IH]; [done |]. intros H. simpl in H.
  apply andb_true_iff in H as [Hc H]. rewrite append_cons. simpl.
  rewrite Hc. by apply IH.
Qed.

Lemma trimEnd_blank (s : string) :
  ChatSpec.whitespaceOnly s = true -> trimEnd s = "".
Proof.
  induction s as [| c s IH]; [done |]. simpl. intros H.
  apply andb_true_iff in H as [Hc H]. by rewrite IH, Hc.
Qed.

Lemma trimEnd_pad (s post : string) :
  ChatSpec.whitespaceOnly post = true -> trimEnd (s +:+ post) = trimEnd s.
Proof.
  intros H. induction s as [| c s IH].
  - rewrite append_nil_l. by apply trimEnd_blank.
  - rewrite append_cons. simpl. by rewrite IH.
Qed.

Lemma whitespaceOnly_append (u v : string) :
  ChatSpec.whitespaceOnly (u +:+ v)
  = ChatSpec.whitespaceOnly u && ChatSpec.whitespaceOnly v.
Proof.
  induction u as [| c u IH]; [done |].
  rewrite append_cons. simpl. by rewrite IH, andb_assoc.
Qed.

(** What [trimStart] leaves of a text followed by more text. *)
Lemma trimStart_append (s t : string) :
  trimStart (s +:+ t) = if ChatSpec.whitespaceOnly s then trimStart t
                        else trimStart s +:+ t.
Proof.
  induction s as [| c s IH]; [done |].
  rewrite append_cons. simpl. destruct (isWhiteSpace c); [exact IH | done].
Qed.

Lemma trim_pad (pre s post : string) :
  ChatSpec.whitespaceOnly pre = true -> ChatSpec.whitespaceOnly post = true ->
  trim (pre +:+ s +:+ post) = trim s.
Proof.
  intros Hpre Hpost. unfold trim.
  rewrite trimStart_pad, trimStart_append by done.
  destruct (ChatSpec.whitespaceOnly s) eqn:E.
  - rewrite (trimStart_whitespaceOnly post Hpost), (trimStart_whitespaceOnly s E). done.
  - by apply trimEnd_pad.
Qed.

Lemma trimEnd_length (s : string) : (String.length (trimEnd s) <= String.length s)%nat.
Proof.
  induction s as [| c s IH]; simpl; [done |].
  destruct (trimEnd s) as [| a t]; [destruct (isWhiteSpace c); simpl; lia |].
  simpl in *. lia.
Qed.

Lemma trimStart_length (s : string) : (String.length (trimStart s) <= String.length s)%nat.
Proof.
  induction s as [| c s IH]; simpl; [done |].
  destruct (isWhiteSpace c); simpl; lia.
Qed.

(** X9.  [isValidName] looks at the trimmed name only: white space
    around a name never changes the verdict, a name of white space alone
    is rejected, and an accepted name has at least two characters. *)
Theorem isValidName_ignores_padding (pre name post : string) :
  ChatSpec.whitespaceOnly pre = true -> ChatSpec.whitespaceOnly post = true ->
  isValidName (pre +:+ name +:+ post) = isValidName name /\
  (ChatSpec.whitespaceOnly name = true -> isValidName name = false) /\
  (isValidName name = true -> (2 <= String.length name)%nat).
Proof.
  intros Hpre Hpost. unfold isValidName. split; [| split].
  - by rewrite trim_pad.
  - intros H. by rewrite (trim_whitespaceOnly name H).
  - intros H. apply Nat.leb_le in H.
    pose proof (trimEnd_length (trimStart name)).
    pose proof (trimStart_length name). unfold trim in H. lia.
Qed.

Lemma isValidName_ignores_padding_witness :
  isValidName ("  " +:+ "Al" +:+ " ") = isValidName "Al".
Proof.
  apply (isValidName_ignores_padding "  " "Al" " "); reflexivity.
Defined.

End FormValidatorFacts.

(** ** The registration and login pages *)

Section AuthPageFacts.
Import JsString Types Auth AuthSpec AuthFlowSpec FormValidators FormSpec AuthPages.

Lemma register_validateForm_ok (f : RegisterFormData) :
  (Register.validateForm f).2 = true <->
  isValidName (rf_name f) = true /\ isValidEmail (rf_email f) = true /\
  isValidMobile (rf_mobile f) = true /\ isValidPassword (rf_password f) = true /\
  doPasswordsMatch (rf_password f) (rf_confirmPassword f) = true.
Proof.
  unfold Register.validateForm. simpl.
  destruct (isValidName _), (isValidEmail _), (isValidMobile _),
    (isValidPassword _), (doPasswordsMatch _ _); simpl; intuition congruence.
Qed.

Lemma register_handleSubmit_invalid f clk p :
  (Register.validateForm f).2 = false ->
  Register.handleSubmit f clk p = setErrors (Register.validateForm f).1 p.
Proof.
  intros H. unfold Register.handleSubmit, Register.handleSubmit_begin.
  destruct (Register.validateForm f) as [errs ok]. simpl in *. by subst.
Qed.

Lemma register_handleSubmit_valid f clk p :
  (Register.validateForm f).2 = true ->
  Register.handleSubmit f clk p =
    Register.handleSubmit_settle f clk
      (setErrors noErrors (setIsLoading true (setErrors (Register.validateForm f).1 p))).
Proof.
  intros H. unfold Register.handleSubmit, Register.handleSubmit_begin.
  destruct (Register.validateForm f) as [errs ok]. simpl in *. by subst.
Qed.

Lemma register_handleSubmit_window f clk p :
  (Register.validateForm f).2 = true ->
  window (Register.handleSubmit f clk p) = (registerUser f clk (window p)).1.
Proof.
  intros H. rewrite register_handleSubmit_valid by done.
  unfold Register.handleSubmit_settle. simpl.
  destruct (registerUser f clk (window p)) as [w result].
  by destruct (success result), (Auth.user result).
Qed.

(** X10.  The registration page reaches [registerUser] only with a form
    that passes all five validators; otherwise the submission changes
    nothing but the error messages.  So if every stored account has a
    valid email and a password of six characters or more, the same holds
    after a submission, whatever was typed. *)
Theorem register_page_keeps_accounts_well_formed
    (f : RegisterFormData) (clk : Clock) (p : Page) :
  ((Register.validateForm f).2 = true <->
     isValidName (rf_name f) = true /\ isValidEmail (rf_email f) = true /\
     isValidMobile (rf_mobile f) = true /\ isValidPassword (rf_password f) = true /\
     doPasswordsMatch (rf_password f) (rf_confirmPassword f) = true) /\
  ((Register.validateForm f).2 = false ->
     Register.handleSubmit f clk p = setErrors (Register.validateForm f).1 p) /\
  (Forall wellFormedAccount (getStoredUsers (window p)) ->
     Forall wellFormedAccount (getStoredUsers (window (Register.handleSubmit f clk p)))).
Proof.
  split; [apply register_validateForm_ok |].
  split; [apply register_handleSubmit_invalid |].
  intros Hall. destruct (Register.validateForm f).2 eqn:Hok.
  - rewrite register_handleSubmit_window by done.
    apply register_validateForm_ok in Hok as (_ & He & _ & Hp & _).
    destruct (registerUser_users f clk (window p)) as [-> | [_ ->]]; [done |].
    apply Forall_app. split; [done |]. apply Forall_singleton.
    exists (rf_email f), (rf_password f).
    split; [apply newUserOf_email |]. split; [done |].
    split; [apply newUserOf_password |]. by apply Nat.leb_le.
  - by rewrite register_handleSubmit_invalid.
Qed.

Lemma register_page_keeps_accounts_well_formed_witness :
  Register.handleSubmit
    (mkRegisterFormData "A" "not-an-email" "123" "short" "other") (mkClock 1 "a" "t")
    (freshPage (Some emptyStore))
  = setErrors
      (mkFormErrors
         (Some "Name must be at least 2 characters")
         (Some "Please enter a valid email address")
         (Some "Please enter a valid mobile number")
         (Some "Password must be at least 6 characters")
         (Some "Passwords do not match") None)
      (freshPage (Some emptyStore)) /\
  Forall wellFormedAccount
    (getStoredUsers (window (Register.handleSubmit adaForm (mkClock 1 "a" "t")
                               (freshPage (Some emptyStore))))).
Proof.
  destruct (register_page_keeps_accounts_well_formed
              (mkRegisterFormData "A" "not-an-email" "123" "short" "other")
              (mkClock 1 "a" "t") (freshPage (Some emptyStore))) as (_ & Hbad & _).
  destruct (register_page_keeps_accounts_well_formed
              adaForm (mkClock 1 "a" "t") (freshPage (Some emptyStore))) as (_ & _ & Hkeep).
  split; [apply Hbad; reflexivity | apply Hkeep; constructor].
Defined.

(** X11.  A successful registration logs the user into the page (user
    store set, route '/chat') but writes no session record: the stored
    session is whatever it was, and that is what the user store holds
    again after the next [initialize]. *)
Theorem registration_opens_no_session
    (f : RegisterFormData) (clk : Clock) (p : Page) (ls : LocalStorage) :
  window p = Some ls ->
  (Register.validateForm f).2 = true ->
  ~ emailTaken (getStoredUsers (Some ls)) (rf_email f) ->
  let p' := Register.handleSubmit f clk p in
  UserStore.user (store p') = Some (delete "password" (newUserOf f clk)) /\
  path p' = "/chat" /\
  isLoading p' = false /\
  errors p' = noErrors /\
  getCurrentUser (window p') = getCurrentUser (window p) /\
  UserStore.user (UserStore.initialize (window p') (store p'))
    = getCurrentUser (window p).
Proof.
  intros Hw Hok Hfree p'. subst p'.
  rewrite register_handleSubmit_valid by done.
  unfold Register.handleSubmit_settle. simpl. rewrite Hw.
  rewrite registerUser_fresh by done. simpl. done.
Qed.

Lemma registration_opens_no_session_witness :
  let p' := Register.handleSubmit adaForm (mkClock 1 "a" "t") (freshPage (Some emptyStore)) in
  UserStore.user (store p') = Some (delete "password" (newUserOf adaForm (mkClock 1 "a" "t"))) /\
  path p' = "/chat" /\
  isLoading p' = false /\
  errors p' = noErrors /\
  getCurrentUser (window p') = None /\
  UserStore.user (UserStore.initialize (window p') (store p')) = None.
Proof.
  apply (registration_opens_no_session adaForm (mkClock 1 "a" "t")
           (freshPage (Some emptyStore)) emptyStore).
  - reflexivity.
  - reflexivity.
  - intros (u & Hu & _). inversion Hu.
Defined.

Lemma login_handleSubmit_invalid f p :
  (Login.validateForm f).2 = false ->
  Login.handleSubmit f p = setErrors (Login.validateForm f).1 p.
Proof.
  intros H. unfold Login.handleSubmit, Login.handleSubmit_begin.
  destruct (Login.validateForm f) as [errs ok]. simpl in *. by subst.
Qed.

Lemma login_handleSubmit_valid f p :
  (Login.validateForm f).2 = true ->
  Login.handleSubmit f p =
    Login.handleSubmit_settle f
      (setErrors noErrors (setIsLoading true (setErrors (Login.validateForm f).1 p))).
Proof.
  intros H. unfold Login.handleSubmit, Login.handleSubmit_begin.
  destruct (Login.validateForm f) as [errs ok]. simpl in *. by subst.
Qed.

(** X12.  The login page.  With an ill-formed email or an empty password
    it never calls [loginUser]: only the field errors change.  With a
    well-formed form, a failed login shows the error of [loginUser] and
    leaves user store, storage and route as they were; a successful one
    puts the same password-free object in the user store and in the
    session record and routes to '/chat', and the next [initialize]
    keeps that user. *)
Theorem login_page_outcomes (f : LoginFormData) (p : Page) :
  let p' := Login.handleSubmit f p in
  ((Login.validateForm f).2 = true <->
     isValidEmail (lf_email f) = true /\ lf_password f <> "") /\
  ((Login.validateForm f).2 = false ->
     p' = setErrors (Login.validateForm f).1 p) /\
  ((Login.validateForm f).2 = true ->
   success (loginUser f (window p)).2 = false ->
     store p' = store p /\ window p' = window p /\ path p' = path p /\
     isLoading p' = false /\
     e_general (errors p') = Some "Invalid email or password") /\
  ((Login.validateForm f).2 = true ->
   success (loginUser f (window p)).2 = true ->
     exists u,
       UserStore.user (store p') = Some u /\
       getCurrentUser (window p') = Some u /\
       u !! "password" = None /\
       path p' = "/chat" /\ isLoading p' = false /\ errors p' = noErrors /\
       UserStore.user (UserStore.initialize (window p') (store p')) = Some u).
Proof.
  intros p'. subst p'. split; [| split; [| split]].
  - unfold Login.validateForm. simpl.
    destruct (isValidEmail _), (lf_password f); simpl; intuition congruence.
  - apply login_handleSubmit_invalid.
  - intros Hok Hfail. rewrite login_handleSubmit_valid by done.
    unfold Login.handleSubmit_settle. simpl.
    unfold loginUser in *. destruct (find _ _); [discriminate |]. simpl. done.
  - intros Hok Hsucc. rewrite login_handleSubmit_valid by done.
    unfold Login.handleSubmit_settle. simpl.
    destruct (window p) as [ls |]; [| discriminate].
    unfold loginUser in *. destruct (find _ _) as [su |]; [| discriminate].
    simpl. exists (delete "password" su). repeat split. by simplify_map_eq.
Qed.

End AuthPageFacts.

(** ** The chat store and its hook: more on sending and attachments *)

Section ChatFlowFacts.
Import JsString Types ChatStore ChatSpec.

Lemma trimEnd_blank_inv (s : string) : trimEnd s = "" -> whitespaceOnly s = true.
Proof.
  induction s as [| c s IH]; simpl; [done |].
  destruct (trimEnd s) as [| a t]; [| discriminate].
  destruct (isWhiteSpace c); [| discriminate]. intros _. by apply IH.
Qed.

Lemma whitespaceOnly_trimStart (s : string) :
  whitespaceOnly (trimStart s) = whitespaceOnly s.
Proof.
  induction s as [| c s IH]; simpl; [done |].
  destruct (isWhiteSpace c) eqn:E; simpl; [done | by rewrite E].
Qed.

Lemma trim_blank_iff (s : string) : trim s = "" <-> whitespaceOnly s = true.
Proof.
  split; [| apply trim_whitespaceOnly].
  intros H. apply trimEnd_blank_inv in H. by rewrite whitespaceOnly_trimStart in H.
Qed.

Lemma truthy_false_iff (s : string) : truthy s = false <-> s = "".
Proof. by destruct s. Qed.

(** X13.  The hook's [sendMessage] returns without doing anything only
    for a blank text with no rendered attachment.  In every other case it
    sends the text as typed (untrimmed) together with all the rendered
    pending attachments, appends that one user message, empties the
    pending list and the input text, clears the error and raises the
    typing flag. *)
Theorem hook_sendMessage_sends_otherwise
    (rendered : ChatState) (content : string) (clk : Clock) (s : ChatState) :
  let blank := whitespaceOnly content = true /\ pendingAttachments rendered = [] in
  let out := UseChat.sendMessage rendered content clk s in
  (out.2 = None <-> blank) /\
  (~ blank ->
     exists userMessage k,
       out.2 = Some k /\
       messages out.1 = (messages s ++ [userMessage])%list /\
       msg_role userMessage = user /\
       msg_content userMessage = Some content /\
       msg_attachments userMessage =
         match pendingAttachments rendered with
         | [] => None
         | atts => Some atts
         end /\
       pl_message (sf_payload k) = content /\
       pl_attachments (sf_payload k) = Some (pendingAttachments rendered) /\
       pl_messageHistory (sf_payload k) = Some (messages s) /\
       pendingAttachments out.1 = [] /\
       inputText out.1 = "" /\
       error out.1 = None /\
       isTyping out.1 = true).
Proof.
  intros blank out. subst blank out. unfold UseChat.sendMessage.
  destruct (negb (truthy (trim content))) eqn:Et;
    destruct (pendingAttachments rendered) as [| a atts] eqn:Ea; simpl.
  - apply negb_true_iff, truthy_false_iff, trim_blank_iff in Et.
    split; [done |]. intros H. by destruct H.
  - split; [split; [discriminate | by intros [_ ?]] |].
    intros _. eexists _, _. repeat split.
  - apply negb_false_iff in Et.
    assert (Hnb : whitespaceOnly content = false).
    { destruct (whitespaceOnly content) eqn:E; [| done].
      apply trim_blank_iff in E. rewrite E in Et. discriminate. }
    split; [split; [discriminate | intros [? _]; congruence] |].
    intros _. eexists _, _. repeat split.
  - split; [split; [discriminate | by intros [_ ?]] |].
    intros _. eexists _, _. repeat split.
Qed.

Lemma hook_sendMessage_sends_otherwise_witness :
  let s := addAttachment photo initialState in
  exists userMessage k,
    (UseChat.sendMessage s "  look " clockA s).2 = Some k /\
    msg_content userMessage = Some "  look " /\
    msg_attachments userMessage = Some [photo] /\
    messages (UseChat.sendMessage s "  look " clockA s).1 = [userMessage] /\
    pendingAttachments (UseChat.sendMessage s "  look " clockA s).1 = [].
Proof.
  intros s.
  destruct (hook_sendMessage_sends_otherwise s "  look " clockA s) as [_ H].
  destruct H as (um & k & Hk & Hm & _ & Hc & Ha & _ & _ & _ & Hp & _).
  - intros [Hb _]. discriminate Hb.
  - exists um, k. repeat split; assumption.
Defined.

Lemma filter_snoc_fresh {A} (p : A -> bool) (l : list A) (x : A) :
  (forall a, a ∈ l -> p a = true) -> p x = false ->
  List.filter p (l ++ [x])%list = l.
Proof.
  intros Hl Hx. induction l as [| a l IH]; simpl.
  - by rewrite Hx.
  - rewrite (Hl a) by apply list_elem_of_here. f_equal.
    apply IH. intros b Hb. apply Hl. by apply list_elem_of_further.
Qed.

(** X14.  Uploading a file and removing the attachment again.  A
    fulfilled [handleFileUpload] appends exactly one pending attachment
    that carries the file's name, type and size and the object URL, with
    the URL as preview exactly for 'image/' types; a rejected one leaves
    the pending list alone and sets the upload error.  When no pending
    attachment already has the generated id, [removeAttachment] on that
    id restores the state as it was before the upload. *)
Theorem upload_then_remove
    (f : File) (url : string) (clk : Clock) (s : ChatState) :
  let up := handleFileUpload f (Fulfilled url) clk s in
  let down := handleFileUpload f Rejected clk s in
  (exists att,
     up.2 = Some att /\
     pendingAttachments up.1 = (pendingAttachments s ++ [att])%list /\
     messages up.1 = messages s /\
     att_id att = generateAttachmentId clk /\
     att_name att = file_name f /\ att_type att = file_type f /\
     att_size att = file_size f /\ att_url att = url /\
     att_preview att = (if startsWith (file_type f) "image/" then Some url else None) /\
     ((forall a, a ∈ pendingAttachments s -> att_id a <> generateAttachmentId clk) ->
        removeAttachment (att_id att) up.1 = s)) /\
  down.2 = None /\
  pendingAttachments down.1 = pendingAttachments s /\
  error down.1 = Some "Failed to upload file. Please try again.".
Proof.
  intros up down. subst up down. simpl. split; [| done].
  eexists. repeat (split; [reflexivity |]).
  intros Hfresh. unfold removeAttachment, addAttachment. simpl.
  rewrite filter_snoc_fresh.
  - by destruct s.
  - intros a Ha. apply negb_true_iff, String.eqb_neq. by apply Hfresh.
  - simpl. by rewrite String.eqb_refl.
Qed.

Lemma upload_then_remove_witness :
  let s := addAttachment photo initialState in
  let up := handleFileUpload (mkFile "a.pdf" "application/pdf" 10) (Fulfilled "blob:a")
              clockA s in
  removeAttachment (generateAttachmentId clockA) up.1 = s.
Proof.
  intros s up.
  destruct (upload_then_remove (mkFile "a.pdf" "application/pdf" 10) "blob:a" clockA s)
    as [(att & _ & _ & _ & Hid & _ & _ & _ & _ & _ & Hrm) _].
  rewrite <- Hid. apply Hrm.
  intros a Ha. apply list_elem_of_singleton in Ha as ->. discriminate.
Defined.

Lemma truthy_generateConversationId clk :
  truthyOpt (Some (generateConversationId clk)) = true.
Proof. reflexivity. Qed.

(** X15.  Every fulfilled send leaves the conversation with a non-empty
    id: the id [sendMessage] read on entry when that was non-empty, a
    freshly generated one otherwise.  So a run of uninterrupted sends
    keeps the id the first of them left. *)
Theorem conversation_id_assigned_once
    (content content' : string) (atts atts' : list Attachment)
    (clk0 clk1 clk2 clk0' clk1' clk2' : Clock) (rnd rnd' : Double.double)
    (s : ChatState) :
  let s1 := sendMessage_run content atts clk0 rnd clk1 clk2 s in
  let s2 := sendMessage_run content' atts' clk0' rnd' clk1' clk2' s1 in
  truthyOpt (conversationId s1) = true /\
  conversationId s1 =
    (if truthyOpt (conversationId s) then conversationId s
     else Some (generateConversationId clk2)) /\
  conversationId s2 = conversationId s1.
Proof.
  intros s1 s2.
  assert (Hrun : forall c a k0 r k1 k2 st,
            conversationId (sendMessage_run c a k0 r k1 k2 st) =
              if truthyOpt (conversationId st) then conversationId st
              else Some (generateConversationId k2)) by reflexivity.
  assert (H1 : truthyOpt (conversationId s1) = true).
  { subst s1. rewrite Hrun. destruct (truthyOpt (conversationId s)) eqn:E; [done |].
    apply truthy_generateConversationId. }
  split; [done |]. split; [apply Hrun |].
  subst s2. by rewrite Hrun, H1.
Qed.

(** X16.  A reply that arrives after [newConversation].  The pending
    send still completes: its assistant message becomes the only message
    of the new conversation (the user message it answers is gone), the
    typing flag, which [newConversation] leaves raised, is lowered, and
    the conversation id is set from what the send read on entry, not
    from what [newConversation] generated. *)
Theorem reply_after_newConversation
    (content : string) (atts : list Attachment) (clk0 clkN clk1 clk2 : Clock)
    (response : AIAgentResponse) (s : ChatState) :
  let s1 := (sendMessage_begin content atts clk0 s).1 in
  let k := (sendMessage_begin content atts clk0 s).2 in
  let sN := newConversation clkN s1 in
  let s2 := sendMessage_settle k (Fulfilled response) clk1 clk2 sN in
  messages sN = [] /\ isTyping sN = true /\
  conversationId sN = Some (generateConversationId clkN) /\
  (exists aiMessage,
     messages s2 = [aiMessage] /\ msg_role aiMessage = assistant /\
     msg_content aiMessage = rs_content response) /\
  isTyping s2 = false /\
  conversationId s2 =
    (if truthyOpt (conversationId s) then conversationId s
     else Some (generateConversationId clk2)).
Proof.
  intros s1 k sN s2. subst s1 k sN s2. unfold sendMessage_settle. simpl.
  repeat (split; [reflexivity |]).
  destruct (truthyOpt (rs_error response)); simpl;
    (split; [eexists; repeat split |]); done.
Qed.

(** The pools hold no empty text. *)
Lemma pools_nonblank (payload : AIAgentPayload) (pool : list string) :
  AiAgent.mockResponses !! AiAgent.getResponseCategory payload = Some pool ->
  Forall (fun c => c <> "") pool.
Proof.
  unfold AiAgent.getResponseCategory.
  destruct (Regex.testAnchored AiAgent.greetingRe _);
    [| destruct (Regex.test AiAgent.codeRe _)];
    [ | | destruct (pl_attachments payload) as [[| a rest] |];
          [ | destruct (startsWith _ _) | ] ];
    intros [= <-]; repeat constructor; discriminate.
Qed.

(** X17.  A complete send against the mock agent always ends well: with
    [rnd] a value of [Math.random()] (a double in [0, 1)) the rounded
    product with the pool length stays below that length, so the reply
    is a non-empty text of type 'text' drawn from the pools, the error
    field is empty afterwards (an earlier error is cleared), and the
    typing flag is down. *)
Theorem mock_send_always_answers
    (content : string) (atts : list Attachment) (clk0 clk1 clk2 : Clock)
    (rnd : Double.double) (s : ChatState) :
  AgentSpec.randomValue rnd ->
  let s' := sendMessage_run content atts clk0 rnd clk1 clk2 s in
  exists userMessage aiMessage reply,
    messages s' = (messages s ++ [userMessage; aiMessage])%list /\
    msg_content userMessage = Some content /\
    msg_role aiMessage = assistant /\
    msg_content aiMessage = Some reply /\ reply <> "" /\
    msg_contentType aiMessage = text /\
    msg_attachments aiMessage = None /\
    error s' = None /\ isTyping s' = false.
Proof.
  intros Hrnd s'. subst s'.
  set (payload := sf_payload (sendMessage_begin content atts clk0 s).2).
  change (sendMessage_run content atts clk0 rnd clk1 clk2 s)
    with (sendMessage_settle (sendMessage_begin content atts clk0 s).2
            (Fulfilled (AiAgent.sendToAIAgent payload rnd)) clk1 clk2
            (sendMessage_begin content atts clk0 s).1).
  destruct (category_pool payload) as (pool & Hp & Hne & _ & Hlen).
  assert (H53 : (Z.of_nat (length pool) < 2 ^ 53)%Z) by lia.
  destruct (getRandomResponse_index pool rnd Hrnd Hne H53) as (i & c & Hi & Hc & _).
  pose proof (pools_nonblank payload pool Hp) as Hnb.
  rewrite Forall_forall in Hnb.
  assert (Hresp : AiAgent.sendToAIAgent payload rnd =
            {| rs_type := text; rs_content := Some c;
               rs_attachments := None; rs_error := None |}).
  { unfold AiAgent.sendToAIAgent. by rewrite Hp, Hc. }
  rewrite Hresp. simpl. eexists _, _, c.
  split; [by rewrite <- app_assoc |].
  repeat (split; [reflexivity |]).
  split; [| done]. apply Hnb. by eapply list_elem_of_lookup_2.
Qed.

Lemma mock_send_always_answers_witness :
  let s' := sendMessage_run "Explain this API" [] clockA (Double.mkDouble 3 (-2))
              clockB clockB (setError (Some "old error") initialState) in
  exists userMessage aiMessage reply,
    messages s' = [userMessage; aiMessage] /\
    msg_content userMessage = Some "Explain this API" /\
    msg_role aiMessage = assistant /\
    msg_content aiMessage = Some reply /\ reply <> "" /\
    msg_contentType aiMessage = text /\
    msg_attachments aiMessage = None /\
    error s' = None /\ isTyping s' = false.
Proof.
  apply (mock_send_always_answers "Explain this API" [] clockA clockB clockB
           (Double.mkDouble 3 (-2)) (setError (Some "old error") initialState)).
  split; [split; vm_compute; done | vm_compute; reflexivity].
Defined.

End ChatFlowFacts.

(** ** formatMessageHistory *)

Section HistoryFacts.
Import Types AgentHistory.

Lemma strip_idem (m : Message) : strip (strip m) = strip m.
Proof. reflexivity. Qed.

Lemma sliceLast_short {A} (n : nat) (l : list A) :
  (length l <= n)%nat -> sliceLast n l = l.
Proof. intros H. unfold sliceLast. by replace (length l - n)%nat with 0%nat by lia. Qed.

Lemma sliceLast_length {A} (n : nat) (l : list A) :
  length (sliceLast n l) = Nat.min n (length l).
Proof. unfold sliceLast. rewrite length_drop. lia. Qed.

(** X18.  [formatMessageHistory] returns the last ten messages (all of
    them when there are fewer), in their order, each reduced to id, role,
    content, content type and timestamp: no attachments, no loading flag.
    Formatting a formatted history changes nothing. *)
Theorem formatMessageHistory_last_ten (messages : list Message) :
  let h := formatMessageHistory messages in
  length h = Nat.min 10 (length messages) /\
  h `suffix_of` List.map strip messages /\
  (forall i m, h !! i = Some m ->
     exists orig,
       messages !! (length messages - length h + i)%nat = Some orig /\
       msg_id m = msg_id orig /\ msg_role m = msg_role orig /\
       msg_content m = msg_content orig /\
       msg_contentType m = msg_contentType orig /\
       msg_timestamp m = msg_timestamp orig /\
       msg_attachments m = None /\ msg_isLoading m = None) /\
  formatMessageHistory h = h.
Proof.
  intros h. subst h. unfold formatMessageHistory.
  assert (Hlen : length (List.map strip (sliceLast 10 messages))
                 = Nat.min 10 (length messages)).
  { by rewrite length_map, sliceLast_length. }
  split; [exact Hlen |]. split; [| split].
  - exists (List.map strip (take (length messages - 10) messages)).
    rewrite <- List.map_app. unfold sliceLast. by rewrite take_drop.
  - intros i m Hi. rewrite Hlen.
    change (List.map strip (sliceLast 10 messages)) with (strip <$> sliceLast 10 messages) in Hi.
    rewrite list_lookup_fmap in Hi. unfold sliceLast in Hi.
    rewrite lookup_drop in Hi.
    destruct (messages !! (length messages - 10 + i)%nat) as [orig |] eqn:E;
      [| discriminate].
    simpl in Hi. injection Hi as <-. exists orig.
    split; [| by repeat split].
    rewrite <- E. f_equal. lia.
  - rewrite sliceLast_short by lia.
    rewrite List.map_map. apply List.map_ext. intros m. apply strip_idem.
Qed.

End HistoryFacts.

(** ** Drag and drop *)

Section DragFacts.
Import Types Validators UploadHandler DragHandlers DragSpec.

(** X19.  The drag counter follows the nesting of enter and leave
    events.  Starting from a state whose counter is the current depth
    (with the overlay off at depth zero), after any run of events in
    which no leave comes without a matching enter, the counter is the
    depth reached and the overlay is off whenever that depth is zero; the
    upload error is never touched. *)
Theorem drag_counter_tracks_depth
    (es : list DragEvent) (h : UploadState) (d d' : nat) :
  dragCounter h = Z.of_nat d ->
  (d = 0%nat -> isDragging h = false) ->
  depthAfter es d = Some d' ->
  let h' := handleAll es h in
  dragCounter h' = Z.of_nat d' /\
  (d' = 0%nat -> isDragging h' = false) /\
  uploadError h' = uploadError h.
Proof.
  revert h d. induction es as [| e es IH]; intros h d Hc Hd Hes; simpl in *.
  - injection Hes as <-. done.
  - destruct e as [hasItems | |]; simpl in Hes.
    + destruct (IH (handleDragEnter hasItems h) (S d)) as (H1 & H2 & H3);
        [simpl; lia | lia | done |]. done.
    + destruct d as [| d0]; [discriminate |].
      destruct (IH (handleDragLeave (dragCounter h) h) d0) as (H1 & H2 & H3);
        [simpl; lia | | done |]; [| done].
      intros ->. simpl. rewrite Hc.
      by replace (Z.of_nat 1 - 1 =? 0)%Z with true by (symmetry; apply Z.eqb_eq; lia).
    + by apply (IH (handleDragOver h) d).
Qed.

Lemma drag_counter_tracks_depth_witness :
  let h' := handleAll [Enter true; Over; Enter true; Leave; Over; Leave] idle in
  dragCounter h' = 0%Z /\ isDragging h' = false.
Proof.
  intros h'.
  destruct (drag_counter_tracks_depth
              [Enter true; Over; Enter true; Leave; Over; Leave] idle 0 0
              eq_refl (fun _ => eq_refl) eq_refl) as (H1 & H2 & _).
  split; [exact H1 | exact (H2 eq_refl)].
Defined.

(** A leave without a matching enter breaks the rule: the overlay stays
    on although the gesture is over. *)
Example unmatched_leave_sticks :
  let h' := handleAll [Leave; Enter true; Leave] idle in
  isDragging h' = true /\ dragCounter h' = (-1)%Z.
Proof. done. Qed.

(** X20.  A drop always ends the drag state (overlay off, counter zero)
    and looks at the first file only: the other dropped files change
    nothing.  Without any file, error and callback state stay as they
    were; a valid first file clears the error and goes to the callback,
    once. *)
Theorem handleDrop_first_file_only
    {W : Type} (cb : File -> W -> W) (files : option (list File))
    (h : UploadState) (w : W) :
  isDragging (handleDrop cb files h w).1 = false /\
  dragCounter (handleDrop cb files h w).1 = 0%Z /\
  (forall f rest rest',
     handleDrop cb (Some (f :: rest)) h w = handleDrop cb (Some (f :: rest')) h w) /\
  (files = None \/ files = Some [] ->
     uploadError (handleDrop cb files h w).1 = uploadError h /\
     (handleDrop cb files h w).2 = w) /\
  (forall f rest, valid (validateFile f) = true ->
     handleDrop cb (Some (f :: rest)) h w =
       ({| isDragging := false; uploadError := None; dragCounter := 0 |}, cb f w)).
Proof.
  split; [| split; [| split; [| split]]].
  - unfold handleDrop. destruct files as [[| f rest] |]; simpl; try done.
    by destruct (valid (validateFile f)).
  - unfold handleDrop. destruct files as [[| f rest] |]; simpl; try done.
    by destruct (valid (validateFile f)).
  - done.
  - by intros [-> | ->].
  - intros f rest Hv. unfold handleDrop. by rewrite Hv.
Qed.

Lemma handleDrop_first_file_only_witness :
  handleDrop (fun f (n : nat) => S n) (Some [ValidatorsSpec.smallPng; ValidatorsSpec.oversizedZip])
    (mkUploadState true (Some "old") 2) 0%nat
  = ({| isDragging := false; uploadError := None; dragCounter := 0 |}, 1%nat).
Proof.
  destruct (handleDrop_first_file_only (fun f (n : nat) => S n)
              (Some [ValidatorsSpec.smallPng; ValidatorsSpec.oversizedZip])
              (mkUploadState true (Some "old") 2) 0%nat) as (_ & _ & _ & _ & H).
  apply H. reflexivity.
Defined.

End DragFacts.

(** ** The voice recorder: stopping, failing to start, timing *)

Section VoiceFlowFacts.
Import Types VoiceRecorder VoiceSpec VoiceFlowSpec.

(** [stopRecording] on a recording in progress, written out. *)
Lemma stopRecording_inProgress (w : World) r st t :
  mediaRecorderRef w = Some r ->
  streamRef w = Some st ->
  timerRef w = Some t ->
  recorders w !! r =
    Some {| state := recording; ondataavailable := true;
            onstop := false; stopQueued := false |} ->
  stopRecording w =
    {| isRecording := isRecording w; recordingDuration := recordingDuration w;
       recordingError := recordingError w;
       mediaRecorderRef := Some r; chunksRef := chunksRef w; timerRef := None;
       streamRef := Some st;
       recorders :=
         <[r := {| state := inactive; ondataavailable := true;
                   onstop := true; stopQueued := true |}]> (recorders w);
       streams := streams w;
       intervals := <[t := false]> (intervals w);
       resolved := resolved w |}.
Proof.
  intros Hr Hst Ht Hrec. unfold stopRecording. rewrite Hr, Hst, Ht. simpl.
  rewrite Hrec. unfold recorderStop. simpl.
  rewrite list_lookup_insert_eq by (by eapply lookup_lt_Some). simpl.
  unfold setRecorders, setTimerRef, clearInterval, setIntervals. simpl.
  by rewrite list_insert_insert_eq, Hr, Hst.
Qed.

(** X21.  Stopping a recording in progress.  [stopRecording] itself
    cancels the timer and stops the recorder but resolves nothing yet and
    leaves the recording flag up.  When the browser then runs the task
    queued by [stop()], the promise resolves with one 'audio/webm' blob
    holding, in order, the chunks gathered so far followed by the final
    data (when not empty), every track of the stream is stopped, the
    stream and recorder references are cleared, the flag is down and the
    duration is zero. *)
Theorem stopRecording_assembles_blob (w : World) (r st t : nat) (data : Chunk) :
  recordingInProgress w ->
  mediaRecorderRef w = Some r ->
  streamRef w = Some st ->
  timerRef w = Some t ->
  let w1 := stopRecording w in
  let w2 := fire (StopTask r data) w1 in
  resolved w1 = resolved w /\
  isRecording w1 = true /\
  intervals w1 !! t = Some false /\
  (forall d, enabled (TimeSlice r d) w1 = false) /\
  resolved w2 =
    (resolved w ++
       [Some {| blob_parts := (chunksRef w ++ kept data)%list;
                blob_type := "audio/webm" |}])%list /\
  isRecording w2 = false /\
  recordingDuration w2 = 0%Z /\
  mediaRecorderRef w2 = None /\
  streamRef w2 = None /\
  (exists tracks, streams w2 !! st = Some tracks /\ Forall (fun tr => tr = ended) tracks) /\
  (forall d, enabled (StopTask r d) w2 = false).
Proof.
  intros [Hrec (r0 & st0 & t0 & tracks & Hr & Hst & Ht & Hrc & Htr & Hiv)] Er Est Et w1 w2.
  rewrite Er in Hr. rewrite Est in Hst. rewrite Et in Ht. simplify_eq.
  subst w2 w1. rewrite (stopRecording_inProgress w r0 st0 t0) by done.
  assert (Hlr : (r0 < length (recorders w))%nat) by (by eapply lookup_lt_Some).
  assert (Hls : (st0 < length (streams w))%nat) by (by eapply lookup_lt_Some).
  assert (Hlt : (t0 < length (intervals w))%nat) by (by eapply lookup_lt_Some).
  unfold fire. simpl. rewrite !list_lookup_insert_eq by done. simpl.
  split; [done |]. split; [done |]. split; [done |]. split; [done |].
  unfold onDataAvailable, kept, onStop, stopTracks.
  destruct (0 <? chunk_size data)%N; simpl; rewrite Htr; simpl;
    rewrite ?app_nil_r;
    (repeat (split; [reflexivity |]));
    (split;
     [ eexists; split; [by apply list_lookup_insert_eq |];
       apply Forall_forall; intros x Hx; apply list_elem_of_In in Hx;
       apply in_map_iff in Hx as (? & <- & _); done
     | intros d; rewrite list_lookup_insert_eq; [done | by rewrite length_insert] ]).
Qed.

Lemma stopRecording_assembles_blob_witness :
  resolved (fire (StopTask 0 (mkChunk 96)) (stopRecording recordingWithChunks))
  = [Some {| blob_parts := [mkChunk 320; mkChunk 288; mkChunk 96];
             blob_type := "audio/webm" |}].
Proof.
  destruct (stopRecording_assembles_blob recordingWithChunks 0 0 0 (mkChunk 96)
              recordingInProgress_chunks eq_refl eq_refl eq_refl)
    as (_ & _ & _ & _ & H & _).
  exact H.
Defined.

Lemma fire_noEmptyChunk (e : BrowserEvent) (w : World) :
  noEmptyChunk w -> noEmptyChunk (fire e w).
Proof.
  intros [Hc Hr]. unfold fire. destruct (enabled e w); [| done].
  assert (Hdata : forall data v, noEmptyChunk v -> noEmptyChunk (onDataAvailable data v)).
  { intros data v [Hvc Hvr]. unfold onDataAvailable.
    destruct (N.ltb_spec 0 (chunk_size data)); [| done].
    split; [| done]. simpl. apply Forall_app. split; [done |].
    by apply Forall_singleton. }
  assert (Hstop : forall v, noEmptyChunk v -> noEmptyChunk (onStop v)).
  { intros v [Hvc Hvr]. unfold onStop.
    assert (Hin : forall u, chunksRef u = chunksRef v -> resolved u = resolved v ->
              noEmptyChunk (resolve (Some {| blob_parts := chunksRef v;
                                            blob_type := "audio/webm" |})
                              (setRecordingDuration 0
                                 (setIsRecording false
                                    (setMediaRecorderRef None (setStreamRef None u)))))).
    { intros u Hu1 Hu2. split; simpl; [by rewrite Hu1 |].
      rewrite Hu2. apply Forall_app. split; [done |].
      apply Forall_singleton. by intros b [= <-]. }
    destruct (streamRef v) as [st |]; [| by apply Hin].
    apply Hin; unfold stopTracks; by destruct (streams v !! st). }
  destruct e as [t | r data | r data].
  - done.
  - destruct (recorders w !! r) as [rec |]; [| done].
    destruct (ondataavailable rec); [by apply Hdata | done].
  - destruct (recorders w !! r) as [rec |]; [| done].
    set (w0 := setRecorders _ w).
    assert (H0 : noEmptyChunk w0) by done.
    destruct (ondataavailable rec), (onstop rec); auto.
Qed.

Lemma hookStep_noEmptyChunk (op : HookOp) (w : World) :
  noEmptyChunk w -> noEmptyChunk (hookStep op w).
Proof.
  intros [Hc Hr]. destruct op as [| media ok | | | e]; simpl.
  - split; [constructor | done].
  - unfold startRecording_settle. destruct media as [tracks |]; [| done].
    destruct ok; done.
  - unfold stopRecording.
    destruct (mediaRecorderRef w) as [r |]; [destruct (streamRef w) as [st |] |].
    + set (w1 := match timerRef w with Some t => _ | None => w end).
      assert (H1 : chunksRef w1 = chunksRef w /\ resolved w1 = resolved w)
        by (subst w1; by destruct (timerRef w)).
      set (w2 := match recorders w1 !! r with Some rec => _ | None => w1 end).
      assert (H2 : chunksRef w2 = chunksRef w /\ resolved w2 = resolved w)
        by (subst w2; by destruct (recorders w1 !! r)).
      unfold recorderStop. destruct (recorders w2 !! r) as [rec |];
        [destruct (state rec) |]; split; simpl; by rewrite ?(proj1 H2), ?(proj2 H2).
    + split; simpl; [done |]. apply Forall_app. split; [done |].
      by apply Forall_singleton.
    + split; simpl; [done |]. apply Forall_app. split; [done |].
      by apply Forall_singleton.
  - unfold cancelRecording. split; simpl; [constructor |].
    set (w1 := match timerRef w with Some t => _ | None => w end).
    assert (H1 : resolved w1 = resolved w) by (subst w1; by destruct (timerRef w)).
    set (w2 := match mediaRecorderRef w1 with Some r => _ | None => w1 end).
    assert (H2 : resolved w2 = resolved w).
    { subst w2. destruct (mediaRecorderRef w1) as [r |]; [| done].
      destruct (recorders w1 !! r) as [rec |] eqn:E; [| done].
      unfold recorderStop. rewrite E. by destruct (state rec). }
    destruct (streamRef w2) as [st |]; simpl; [| by rewrite H2].
    unfold stopTracks. destruct (streams w2 !! st); simpl; by rewrite H2.
  - by apply fire_noEmptyChunk.
Qed.

(** X22.  No empty chunk is ever kept: from a state without empty
    chunks (the initial one, for instance), whatever the user and the
    browser do, the chunk list and every blob handed out hold only chunks
    of positive size. *)
Theorem no_empty_chunk_ever (ops : list HookOp) (w : World) :
  noEmptyChunk w -> noEmptyChunk (hookRun ops w).
Proof.
  revert w. induction ops as [| op ops IH]; intros w Hw; [done |].
  change (hookRun (op :: ops) w) with (hookRun ops (hookStep op w)).
  by apply IH, hookStep_noEmptyChunk.
Qed.

Lemma no_empty_chunk_ever_witness :
  noEmptyChunk
    (hookRun [StartBegin; StartSettle (Fulfilled [live]) true;
              Browser (TimeSlice 0 (mkChunk 0)); Browser (TimeSlice 0 (mkChunk 7));
              StopRec; Browser (StopTask 0 (mkChunk 0))] initialWorld).
Proof.
  apply (no_empty_chunk_ever _ initialWorld). split; constructor.
Defined.

(** X23.  When [startRecording] fails.  If the microphone is refused,
    nothing is allocated: only the error message is set.  If the stream
    is granted but the recorder cannot be created, the error message is
    the same, no recorder exists and the recording flag is unchanged, yet
    the stream stays referenced with its tracks as granted; a
    [stopRecording] then resolves [null] without touching them, and it is
    [cancelRecording] that stops them. *)
Theorem startRecording_failures (tracks : list TrackState) (w : World) :
  mediaRecorderRef w = None ->
  let w0 := startRecording_begin w in
  let refused := startRecording_settle Rejected true w0 in
  let broken := startRecording_settle (Fulfilled tracks) false w0 in
  let st := length (streams w) in
  (recordingError refused = Some micDenied /\
   streams refused = streams w /\ recorders refused = recorders w /\
   streamRef refused = streamRef w /\ isRecording refused = isRecording w /\
   chunksRef refused = []) /\
  (recordingError broken = Some micDenied /\
   recorders broken = recorders w /\ mediaRecorderRef broken = None /\
   isRecording broken = isRecording w /\
   streamRef broken = Some st /\ streams broken !! st = Some tracks /\
   stopRecording broken = resolve None broken /\
   streams (stopRecording broken) !! st = Some tracks /\
   streams (cancelRecording broken) !! st = Some (List.map (fun _ => ended) tracks) /\
   streamRef (cancelRecording broken) = None).
Proof.
  intros Hr w0 refused broken st. subst w0 refused st.
  split; [done |].
  assert (Hb : broken =
    {| isRecording := isRecording w; recordingDuration := recordingDuration w;
       recordingError := Some micDenied; mediaRecorderRef := None;
       chunksRef := []; timerRef := timerRef w;
       streamRef := Some (length (streams w)); recorders := recorders w;
       streams := (streams w ++ [tracks])%list; intervals := intervals w;
       resolved := resolved w |}).
  { subst broken. unfold startRecording_settle, startRecording_begin. simpl.
    unfold setRecordingError, setStreamRef, setStreams, setChunksRef. simpl.
    by rewrite Hr. }
  rewrite Hb. clear Hb broken.
  assert (Hl : (streams w ++ [tracks])%list !! length (streams w) = Some tracks)
    by apply list_lookup_middle, eq_refl.
  simpl. repeat (split; [done |]).
  unfold cancelRecording, stopTracks. simpl.
  destruct (timerRef w) as [t |]; simpl; rewrite Hl; simpl;
    (split; [| done]);
    (rewrite list_lookup_insert_eq; [done | rewrite length_app; simpl; lia]).
Qed.

Lemma startRecording_failures_witness :
  let broken := startRecording_settle (Fulfilled [live]) false
                  (startRecording_begin initialWorld) in
  streams (stopRecording broken) !! 0%nat = Some [live] /\
  streams (cancelRecording broken) !! 0%nat = Some [ended].
Proof.
  intros broken.
  destruct (startRecording_failures [live] initialWorld eq_refl)
    as (_ & _ & _ & _ & _ & _ & _ & _ & H1 & H2 & _).
  split; [exact H1 | exact H2].
Defined.

Lemma fire_tick (t : nat) (w : World) :
  intervals w !! t = Some true ->
  fire (Tick t) w = setRecordingDuration (recordingDuration w + 1) w.
Proof.
  intros H. unfold fire, enabled. by rewrite bool_decide_eq_true_2.
Qed.

(** X24.  The duration counter counts the timer's ticks while a
    recording is in progress, and stops with it: after [stopRecording] or
    [cancelRecording] the timer is cancelled, so a late tick changes
    nothing. *)
Theorem duration_counts_ticks (w : World) (t : nat) (n : nat) :
  recordingInProgress w ->
  timerRef w = Some t ->
  recordingDuration (fireAll (replicate n (Tick t)) w)
    = (recordingDuration w + Z.of_nat n)%Z /\
  fire (Tick t) (stopRecording w) = stopRecording w /\
  fire (Tick t) (cancelRecording w) = cancelRecording w.
Proof.
  intros [Hrec (r0 & st0 & t0 & tracks & Hr & Hst & Ht & Hrc & Htr & Hiv)] Et.
  rewrite Et in Ht. simplify_eq.
  assert (Hlt : (t0 < length (intervals w))%nat) by (by eapply lookup_lt_Some).
  split; [| split].
  - clear Hrec Hr Hst Et Hrc Htr Hlt. revert w Hiv.
    induction n as [| n IH]; intros w Hiv; simpl; [lia |].
    rewrite (fire_tick t0 w Hiv).
    change (fold_left _ (replicate n (Tick t0)) ?v)
      with (fireAll (replicate n (Tick t0)) v).
    rewrite IH by done. simpl. lia.
  - rewrite (stopRecording_inProgress w r0 st0 t0) by done.
    unfold fire, enabled. simpl. rewrite list_lookup_insert_eq by done.
    by rewrite bool_decide_eq_false_2.
  - rewrite (cancelRecording_inProgress w r0 st0 t0 tracks) by done.
    unfold fire, enabled. simpl. rewrite list_lookup_insert_eq by done.
    by rewrite bool_decide_eq_false_2.
Qed.

Lemma duration_counts_ticks_witness :
  recordingDuration (fireAll (replicate 3 (Tick 0)) freshRecording) = 3%Z.
Proof.
  destruct (duration_counts_ticks freshRecording 0 3 recordingInProgress_fresh eq_refl)
    as [H _].
  exact H.
Defined.

End VoiceFlowFacts.

(** ** The chat input: voice clips and the duration display *)

Section ChatInputFacts.
Import JsString Types Validators ValidatorsSpec VoiceRecorder VoiceFlowSpec ChatInput.

(** X25.  A finished recording goes to the upload callback without
    passing [validateFile].  Whatever blob [stopRecording] resolved with,
    an empty one included, [handleStopRecording] turns it into one pending
    'audio/webm' attachment of the blob's size; a [null] result adds
    nothing.  So a clip above 10 MB is attached although the same file,
    dropped on the input, is rejected with the size-limit error. *)
Theorem voice_clip_skips_validation
    (blob : Blob) (now : N) (url : string) (clk : Clock)
    (h : UploadHandler.UploadState) (s : ChatStore.ChatState) :
  let cb := UploadHandler.onFileUpload (fun _ => Fulfilled url) clk in
  let file := {| file_name := "voice-message-" +:+ pretty now +:+ ".webm";
                 file_type := "audio/webm";
                 file_size := blobSize blob |} in
  handleStopRecording cb None now s = s /\
  (exists att,
     ChatStore.pendingAttachments (handleStopRecording cb (Some blob) now s)
       = (ChatStore.pendingAttachments s ++ [att])%list /\
     att_name att = file_name file /\
     att_type att = "audio/webm" /\
     att_size att = blobSize blob /\
     att_preview att = None) /\
  ((10485760 < blobSize blob)%N ->
     validateFile file = {| valid := false; error := Some sizeError |} /\
     (UploadHandler.handleDrop cb (Some [file]) h s).2 = s).
Proof.
  intros cb file. split; [done |]. split.
  - eexists. simpl. repeat split.
  - intros Hbig.
    assert (Hv : validateFile file = {| valid := false; error := Some sizeError |}).
    { rewrite validateFile_cases. simpl.
      rewrite <- MAX_FILE_SIZE_bytes in Hbig. apply N.ltb_lt in Hbig.
      by rewrite Hbig. }
    split; [exact Hv |].
    rewrite (handleDrop_rejected cb file [] h s); [done | by rewrite Hv].
Qed.

Lemma voice_clip_skips_validation_witness :
  let blob := {| blob_parts := [mkChunk 10000000; mkChunk 4000000];
                 blob_type := "audio/webm" |} in
  validateFile {| file_name := "voice-message-" +:+ pretty 1700000000000%N +:+ ".webm";
                  file_type := "audio/webm"; file_size := blobSize blob |}
    = {| valid := false; error := Some sizeError |} /\
  List.map att_size
    (ChatStore.pendingAttachments
       (handleStopRecording (UploadHandler.onFileUpload (fun _ => Fulfilled "blob:v") ChatSpec.clockA)
          (Some blob) 1700000000000 ChatStore.initialState))
    = [14000000%N].
Proof.
  intros blob.
  destruct (voice_clip_skips_validation blob 1700000000000 "blob:v" ChatSpec.clockA
              DragSpec.idle ChatStore.initialState) as (_ & _ & Hbig).
  destruct Hbig as [Hv _]; [reflexivity |].
  split; [exact Hv | reflexivity].
Defined.

End ChatInputFacts.

Section DurationFacts.
Import JsString VoiceFlowSpec VoiceView.

Lemma padStart_two_digits_checked :
  forallb (fun n => String.eqb (padStart 2 "0" (pretty (N.of_nat n)))
                      (twoDigits (N.of_nat n)))
    (seq 0 100) = true.
Proof. vm_compute. reflexivity. Qed.

Lemma padStart_two_digits (n : N) :
  (n < 100)%N -> padStart 2 "0" (pretty n) = twoDigits n.
Proof.
  intros Hn. pose proof padStart_two_digits_checked as H.
  rewrite forallb_forall in H.
  specialize (H (N.to_nat n)). rewrite N2Nat.id in H.
  apply String.eqb_eq, H, in_seq. lia.
Qed.

(** X26.  [formatDuration] shows a duration below 100 minutes as MM:SS:
    two digits of minutes, a colon, two digits of seconds, zero-padded,
    five characters in all. *)
Theorem formatDuration_mm_ss (seconds : N) :
  (seconds < 6000)%N ->
  formatDuration seconds
    = twoDigits (seconds / 60) +:+ ":" +:+ twoDigits (seconds mod 60) /\
  String.length (formatDuration seconds) = 5%nat.
Proof.
  intros H.
  assert (Hm : (seconds / 60 < 100)%N) by (apply N.Div0.div_lt_upper_bound; lia).
  assert (Hs : (seconds mod 60 < 100)%N).
  { pose proof (N.mod_upper_bound seconds 60). lia. }
  unfold formatDuration.
  rewrite (padStart_two_digits _ Hm), (padStart_two_digits _ Hs).
  split; reflexivity.
Qed.

Lemma formatDuration_mm_ss_witness :
  formatDuration 125 = "02:05" /\ String.length (formatDuration 125) = 5%nat.
Proof.
  destruct (formatDuration_mm_ss 125) as [H1 H2]; [reflexivity |].
  split; [rewrite H1; reflexivity | exact H2].
Defined.

End DurationFacts.

(** ** From the registration page to the login page *)

Section EndToEnd.
Import JsString Types Auth AuthSpec AuthFlowSpec FormValidators FormSpec AuthPages.

Lemma login_page_outcomes_witness :
  let p := freshPage (Some adaStore) in
  Login.handleSubmit (mkLoginFormData "ada@example.org" "") p
    = setErrors (mkFormErrors None None None (Some "Password is required") None None) p /\
  e_general (errors (Login.handleSubmit (mkLoginFormData "ada@example.org" "nope") p))
    = Some "Invalid email or password" /\
  exists u,
    UserStore.user (store (Login.handleSubmit (mkLoginFormData "ada@example.org" "s3cret!") p))
      = Some u /\ u !! "password" = None.
Proof.
  intros p.
  destruct (login_page_outcomes (mkLoginFormData "ada@example.org" "") p)
    as (_ & Hbad & _ & _).
  destruct (login_page_outcomes (mkLoginFormData "ada@example.org" "nope") p)
    as (_ & _ & Hfail & _).
  destruct (login_page_outcomes (mkLoginFormData "ada@example.org" "s3cret!") p)
    as (_ & _ & _ & Hok).
  split; [apply Hbad; reflexivity |].
  split; [apply Hfail; reflexivity |].
  destruct Hok as (u & Hu & _ & Hp & _); [reflexivity | reflexivity |].
  exists u. split; assumption.
Defined.

(** X27.  An account made on the registration page can log in on the
    login page.  If a registration form passes validation and its email
    is free, then after the submission the same email and password pass
    the login form's validation and the login succeeds: the user store
    and the session record both hold the registered user without the
    password, and the route is '/chat'. *)
Theorem registered_account_can_log_in
    (f : RegisterFormData) (clk : Clock) (p q : Page) (ls : LocalStorage) :
  window p = Some ls ->
  (Register.validateForm f).2 = true ->
  ~ emailTaken (getStoredUsers (Some ls)) (rf_email f) ->
  window q = window (Register.handleSubmit f clk p) ->
  let q' := Login.handleSubmit (credentialsOf f) q in
  (Login.validateForm (credentialsOf f)).2 = true /\
  UserStore.user (store q') = Some (delete "password" (newUserOf f clk)) /\
  getCurrentUser (window q') = Some (delete "password" (newUserOf f clk)) /\
  path q' = "/chat" /\
  errors q' = noErrors.
Proof.
  intros Hw Hok Hfree Hq q'.
  pose proof Hok as Hok'.
  apply register_validateForm_ok in Hok' as (_ & He & _ & Hp & _).
  assert (Hl : (Login.validateForm (credentialsOf f)).2 = true).
  { unfold Login.validateForm, credentialsOf. simpl. rewrite He.
    destruct (rf_password f); [discriminate | reflexivity]. }
  split; [exact Hl |].
  assert (Hlogin : loginUser (credentialsOf f) (window q) =
    (Some {| ai_chat_users := Some (getStoredUsers (Some ls) ++ [newUserOf f clk])%list;
             ai_chat_current_user := Some (delete "password" (newUserOf f clk)) |},
     {| success := true; user := Some (delete "password" (newUserOf f clk));
        error := None |})).
  { rewrite Hq, register_handleSubmit_window, Hw by done.
    rewrite registerUser_fresh by done. cbn [fst].
    by apply loginUser_after_register. }
  subst q'. rewrite login_handleSubmit_valid by done.
  unfold Login.handleSubmit_settle.
  change (window (setErrors noErrors (setIsLoading true
            (setErrors (Login.validateForm (credentialsOf f)).1 q))))
    with (window q).
  rewrite Hlogin. simpl. done.
Qed.

Lemma registered_account_can_log_in_witness :
  let p := freshPage (Some emptyStore) in
  let q' := Login.handleSubmit (credentialsOf bobForm)
              (freshPage (window (Register.handleSubmit bobForm (mkClock 3 "c" "t3") p))) in
  UserStore.user (store q') = Some (delete "password" (newUserOf bobForm (mkClock 3 "c" "t3"))) /\
  path q' = "/chat".
Proof.
  intros p q'.
  destruct (registered_account_can_log_in bobForm (mkClock 3 "c" "t3") p
              (freshPage (window (Register.handleSubmit bobForm (mkClock 3 "c" "t3") p)))
              emptyStore) as (_ & H1 & _ & H2 & _).
  - reflexivity.
  - reflexivity.
  - intros (u & Hu & _). inversion Hu.
  - reflexivity.
  - split; assumption.
Defined.

End EndToEnd.

(** ** File sizes on display *)

Section FileSizeFacts.
Import FilePreview.

(** X28.  The number [formatFileSize] shows is the size in its unit
    rounded to the nearest tenth: below 1024 bytes the exact count with
    ' B'; from 1024 bytes up to 1 MiB the tenths of KiB with ' KB', and
    from 1 MiB the tenths of MiB with ' MB', in both cases at most a
    twentieth of the unit away from the true size.  The KB range runs
    from 1.0 up to 1024.0: sizes just under 1 MiB show as '1024.0 KB'. *)
Theorem formatFileSize_rounds_to_tenths (bytes : N) :
  (bytes < 2 ^ 53)%N ->
  ((bytes < 1024)%N -> formatFileSize bytes = pretty bytes +:+ " B") /\
  ((1024 <= bytes < 1048576)%N ->
     let n := tenths bytes 1024 in
     formatFileSize bytes = pretty (n / 10)%N +:+ "." +:+ pretty (n mod 10)%N +:+ " KB" /\
     (1024 * n <= 10 * bytes + 512 < 1024 * n + 1024)%N /\
     (10 <= n <= 10240)%N /\
     ((1048525 <= bytes)%N -> n = 10240%N)) /\
  ((1048576 <= bytes)%N ->
     let n := tenths bytes 1048576 in
     formatFileSize bytes = pretty (n / 10)%N +:+ "." +:+ pretty (n mod 10)%N +:+ " MB" /\
     (1048576 * n <= 10 * bytes + 524288 < 1048576 * n + 1048576)%N /\
     (10 <= n)%N).
Proof.
  intros _.
  assert (Hdiv : forall a d, (0 < d)%N -> (d * (a / d) <= a < d * (a / d) + d)%N).
  { intros a d Hd. assert (Hnz : d <> 0%N) by lia.
    pose proof (N.div_mod a d Hnz) as E.
    pose proof (N.mod_upper_bound a d Hnz) as U.
    generalize dependent (a mod d)%N. generalize dependent (d * (a / d))%N.
    intros. lia. }
  split; [| split].
  - intros H. unfold formatFileSize. apply N.ltb_lt in H. by rewrite H.
  - intros [Hlo Hhi] n.
    assert (E1 : (bytes <? 1024)%N = false) by (apply N.ltb_ge; lia).
    assert (E2 : (bytes <? 1024 * 1024)%N = true) by (apply N.ltb_lt; lia).
    unfold formatFileSize, toFixed1. rewrite E1, E2. fold n.
    split; [by rewrite !append_assoc |].
    pose proof (Hdiv (10 * bytes + 512)%N 1024%N ltac:(lia)) as Hn.
    change ((10 * bytes + 512) / 1024)%N with n in Hn.
    clearbody n. split; [lia |]. split; [lia |]. intros Hbig. lia.
  - intros Hlo n.
    assert (E1 : (bytes <? 1024)%N = false) by (apply N.ltb_ge; lia).
    assert (E2 : (bytes <? 1024 * 1024)%N = false) by (apply N.ltb_ge; lia).
    unfold formatFileSize, toFixed1. rewrite E1, E2.
    change (tenths bytes (1024 * 1024)) with n.
    split; [by rewrite !append_assoc |].
    pose proof (Hdiv (10 * bytes + 524288)%N 1048576%N ltac:(lia)) as Hn.
    change ((10 * bytes + 524288) / 1048576)%N with n in Hn.
    clearbody n. split; lia.
Qed.

Lemma formatFileSize_rounds_to_tenths_witness :
  formatFileSize 1048570 = "1024.0 KB" /\ formatFileSize 1536 = "1.5 KB".
Proof.
  destruct (formatFileSize_rounds_to_tenths 1048570 eq_refl) as (_ & H1 & _).
  destruct (formatFileSize_rounds_to_tenths 1536 eq_refl) as (_ & H2 & _).
  destruct H1 as [H1 _]; [lia |]. destruct H2 as [H2 _]; [lia |].
  split; [rewrite H1 | rewrite H2]; reflexivity.
Defined.

End FileSizeFacts.

(** ** The Enter key *)

Section EnterKeyFacts.
Import JsString Types ChatStore ChatInput.

(** X29.  The Enter key calls the send handler exactly when the key is
    'Enter' without Shift, the input is enabled, and there is a non-blank
    text or an attachment; in every other case the key press changes
    nothing.  This guard agrees with the hook's own: whenever it lets a
    press through, the hook's [sendMessage] on the same text and
    attachments does send, and when an enabled input blocks the press,
    the hook would have returned without sending as well. *)
Theorem enter_key_sends_when_hook_would
    {W : Type} (onSend : W -> W) (key : string) (shiftKey disabled : bool)
    (value : string) (atts : list Attachment) (w : W)
    (rendered : ChatState) (clk : Clock) (s : ChatState) :
  pendingAttachments rendered = atts ->
  handleKeyDown onSend key shiftKey disabled value atts w =
    (if String.eqb key "Enter" && negb shiftKey && canSend disabled value atts
     then onSend w else w) /\
  (shiftKey = true -> handleKeyDown onSend key shiftKey disabled value atts w = w) /\
  (disabled = true -> handleKeyDown onSend key shiftKey disabled value atts w = w) /\
  (canSend disabled value atts = true ->
     (UseChat.sendMessage rendered value clk s).2 <> None) /\
  (disabled = false -> canSend disabled value atts = false ->
     UseChat.sendMessage rendered value clk s = (s, None)).
Proof.
  intros Hatts. unfold handleKeyDown, canSend, UseChat.sendMessage. rewrite Hatts.
  split; [| split; [| split; [| split]]].
  - by destruct (String.eqb key "Enter"), shiftKey, disabled,
      (truthy (trim value)), atts.
  - intros ->. by rewrite andb_false_r.
  - intros ->. simpl. by destruct (String.eqb key "Enter" && negb shiftKey).
  - destruct disabled; [discriminate |]. simpl.
    destruct (truthy (trim value)), atts; simpl; try discriminate; done.
  - intros ->. simpl.
    destruct (truthy (trim value)), atts; simpl; try discriminate; done.
Qed.

Lemma enter_key_sends_when_hook_would_witness :
  handleKeyDown S "Enter" false false "hi" [] 0%nat = 1%nat /\
  handleKeyDown S "Enter" true false "hi" [] 0%nat = 0%nat /\
  (UseChat.sendMessage initialState "hi" ChatSpec.clockA initialState).2 <> None.
Proof.
  destruct (enter_key_sends_when_hook_would S "Enter" false false "hi" [] 0%nat
              initialState ChatSpec.clockA initialState eq_refl) as (H1 & _ & _ & H4 & _).
  destruct (enter_key_sends_when_hook_would S "Enter" true false "hi" [] 0%nat
              initialState ChatSpec.clockA initialState eq_refl) as (_ & H2 & _).
  split; [exact H1 |]. split; [apply H2; reflexivity | apply H4; reflexivity].
Defined.

End EnterKeyFacts.
